(** * Companion web UI: product catalog merger, text filter, candidates list
      and the module store-info subscription

    A shallow embedding of
    - [src/webui/src/Hooks/useFilteredProducts.ts]
      ([useAllConnectionProducts], [filterProducts]),
    - [src/webui/src/Connections/AddConnectionPanel.tsx]
      (the candidates list of [AddConnectionsPanel]),
    - [src/webui/src/Modules/ModuleManagePanel.tsx] ([useModuleStoreInfo]),
    together with the properties the specification states about them. *)

From Stdlib Require Import String Ascii List Bool Arith Lia ZArith Permutation.
From Stdlib Require Import Sorted.
Import ListNotations.
Open Scope string_scope.

(** ** Plain JavaScript objects used as string-keyed mappings

    [Record<string, V>] built with [o[k] = v] and read back with
    [Object.values] / [Object.entries].  Own string keys are enumerated in
    creation order and assigning to an existing key keeps its position, so
    the object is held as an association list without repeated keys, in
    creation order. *)
Module JsObject.

Section Obj.
Context {V : Type}.

Definition t : Type := list (string * V).

Definition empty : t := [].

(** [o[k]], [None] standing for [undefined]. *)
Fixpoint get (o : t) (k : string) : option V :=
  match o with
  | [] => None
  | (k', v) :: o' => if String.eqb k' k then Some v else get o' k
  end.

(** [o[k] = v]. *)
Fixpoint set (o : t) (k : string) (v : V) : t :=
  match o with
  | [] => [(k, v)]
  | (k', v') :: o' =>
      if String.eqb k' k then (k', v) :: o' else (k', v') :: set o' k v
  end.

Definition keys (o : t) : list string := map fst o.

Definition mem (o : t) (k : string) : bool :=
  match get o k with Some _ => true | None => false end.
End Obj.

Arguments t : clear implicits.

(** A property key is an array index when it is the canonical decimal
    form of an integer below [2^32 - 1]: decimal digits only, without a
    leading zero unless it is ["0"] itself. *)
Definition is_digit (c : ascii) : bool :=
  let n := nat_of_ascii c in ((48 <=? n) && (n <=? 57))%nat.

Fixpoint all_digits (s : string) : bool :=
  match s with
  | EmptyString => true
  | String c s' => is_digit c && all_digits s'
  end.

Fixpoint decimal_value (acc : N) (s : string) : N :=
  match s with
  | EmptyString => acc
  | String c s' => decimal_value (10 * acc + (N_of_ascii c - 48))%N s'
  end.

Definition array_index (s : string) : option N :=
  match s with
  | EmptyString => None
  | String c s' =>
      if all_digits s
         && (negb (Ascii.eqb c "0") || String.eqb s' "")
         && (decimal_value 0 s <? 4294967295)%N
      then Some (decimal_value 0 s)
      else None
  end.

Definition is_array_index (s : string) : bool :=
  match array_index s with Some _ => true | None => false end.

Section Enumerate.
Context {V : Type}.

Definition index_of (e : string * V) : N :=
  match array_index (fst e) with Some n => n | None => 0%N end.

Fixpoint insert_by_index (e : string * V) (l : list (string * V))
  : list (string * V) :=
  match l with
  | [] => [e]
  | e' :: l' =>
      if (index_of e <? index_of e')%N then e :: e' :: l'
      else e' :: insert_by_index e l'
  end.

(** [Object.entries(o)]: the array-index keys in ascending numeric
    order, then the other string keys in insertion order. *)
Definition entries (o : t V) : list (string * V) :=
  fold_left (fun acc e => insert_by_index e acc)
    (filter (fun e => is_array_index (fst e)) o) []
  ++ filter (fun e => negb (is_array_index (fst e))) o.

(** [Object.values(o)]. *)
Definition values (o : t V) : list V := map snd (entries o).
End Enumerate.

(** [o[k] = v] on an object created by a literal: assigning an object to
    ["__proto__"] replaces the prototype and creates no own property. *)
Definition assign {V : Type} (o : t V) (k : string) (v : V) : t V :=
  if String.eqb k "__proto__" then o else set o k v.

(** The property names an object literal inherits from
    [Object.prototype]; [get] is the lookup of an own property and agrees
    with [o[k]] for every other key. *)
Definition object_prototype_names : list string :=
  [ "constructor"; "__defineGetter__"; "__defineSetter__"; "hasOwnProperty";
    "__lookupGetter__"; "__lookupSetter__"; "isPrototypeOf";
    "propertyIsEnumerable"; "toString"; "valueOf"; "__proto__";
    "toLocaleString" ].

End JsObject.

(** ** Data model *)

(** Modelled from the spec: the type declarations of
    [@companion-app/shared/Model/ModuleInfo.js] ([ModuleDisplayInfo],
    [NewClientModuleVersionInfo2], [NewClientModuleInfo]) are not part of the
    sources; the records hold the fields the code reads ("per-module
    metadata including available versions (stable, prerelease, list of
    installed), legacy/compatibility flags, help availability"). *)
Record ModuleDisplayInfo : Type := {
  mdi_id : string;
  mdi_name : string;
  mdi_manufacturer : string;
  mdi_shortname : string;
  mdi_products : list string;
  mdi_keywords : option (list string)
}.

Record NewClientModuleVersionInfo2 : Type := {
  displayName : string;
  isLegacy : bool;
  hasHelp : bool
}.

Record NewClientModuleInfo : Type := {
  baseInfo : ModuleDisplayInfo;
  stableVersion : option NewClientModuleVersionInfo2;
  prereleaseVersion : option NewClientModuleVersionInfo2;
  installedVersions : list NewClientModuleVersionInfo2
}.

(** Modelled from the spec: [ModuleStoreListCacheEntry] of
    [@companion-app/shared/Model/ModulesStore.js] is not part of the sources
    ("per-module metadata from a remote registry: display name, keywords,
    external links, product list"). *)
Record ModuleStoreListCacheEntry : Type := {
  sle_id : string;
  sle_name : string;
  sle_manufacturer : string;
  sle_shortname : string;
  sle_products : list string;
  sle_keywords : option (list string);
  storeUrl : string;
  githubUrl : option string
}.

(** [interface FuzzyProduct] *)
Record FuzzyProduct : Type := {
  id : string;
  installedInfo : option NewClientModuleInfo;
  storeInfo : option ModuleStoreListCacheEntry;
  product : string;
  keywords : string;
  name : string;
  manufacturer : string;
  shortname : string
}.

(** The part of [ModuleInfoStore] the hooks read: two [Map]s, held as their
    entries in iteration order. *)
Record ModuleInfoStore : Type := {
  modules : list (string * NewClientModuleInfo);
  storeList : list (string * ModuleStoreListCacheEntry)
}.

(** [Map.prototype.values()] *)
Definition map_values {V : Type} (m : list (string * V)) : list V := map snd m.

(** ** The product catalog merger *)

(** [keywords?.join(';') ?? ''] *)
Definition join_keywords (kw : option (list string)) : string :=
  match kw with
  | Some l => String.concat ";" l
  | None => ""
  end.

(** The template literal [`${id}-${product}`]. *)
Definition composite_key (module_id product : string) : string :=
  module_id ++ "-" ++ product.

(** The object literal of the first loop. *)
Definition installed_product (moduleInfo : NewClientModuleInfo) (product : string)
  : FuzzyProduct :=
  {| id := mdi_id (baseInfo moduleInfo);
     installedInfo := Some moduleInfo;
     storeInfo := None;
     product := product;
     keywords := join_keywords (mdi_keywords (baseInfo moduleInfo));
     name := mdi_name (baseInfo moduleInfo);
     manufacturer := mdi_manufacturer (baseInfo moduleInfo);
     shortname := mdi_shortname (baseInfo moduleInfo) |}.

(** The object literal of the second loop. *)
Definition store_product (moduleInfo : ModuleStoreListCacheEntry) (product : string)
  : FuzzyProduct :=
  {| id := sle_id moduleInfo;
     installedInfo := None;
     storeInfo := Some moduleInfo;
     product := product;
     keywords := join_keywords (sle_keywords moduleInfo);
     name := sle_name moduleInfo;
     manufacturer := sle_manufacturer moduleInfo;
     shortname := sle_shortname moduleInfo |}.

(** The assignment [installedInfo.storeInfo = moduleInfo] on a record held
    by the mapping: the record is only reachable through the mapping, so the
    mutation is the replacement of the value stored under its key. *)
Definition set_storeInfo (r : FuzzyProduct) (moduleInfo : ModuleStoreListCacheEntry)
  : FuzzyProduct :=
  {| id := id r;
     installedInfo := installedInfo r;
     storeInfo := Some moduleInfo;
     product := product r;
     keywords := keywords r;
     name := name r;
     manufacturer := manufacturer r;
     shortname := shortname r |}.

(** Body of the inner loop over an installed module's products. *)
Definition add_installed_product (moduleInfo : NewClientModuleInfo)
  (allProducts : JsObject.t FuzzyProduct) (product : string)
  : JsObject.t FuzzyProduct :=
  let key := composite_key (mdi_id (baseInfo moduleInfo)) product in
  JsObject.assign allProducts key (installed_product moduleInfo product).

(** Body of the outer loop over [modules.modules.values()]. *)
Definition add_installed_module (allProducts : JsObject.t FuzzyProduct)
  (moduleInfo : NewClientModuleInfo) : JsObject.t FuzzyProduct :=
  fold_left (add_installed_product moduleInfo)
    (mdi_products (baseInfo moduleInfo)) allProducts.

(** Body of the inner loop over a store entry's products.  Every stored
    value is an object, hence truthy: the test [if (installedInfo)] is the
    test that the key is present. *)
Definition add_store_product (moduleInfo : ModuleStoreListCacheEntry)
  (allProducts : JsObject.t FuzzyProduct) (product : string)
  : JsObject.t FuzzyProduct :=
  let key := composite_key (sle_id moduleInfo) product in
  match JsObject.get allProducts key with
  | Some installedInfo =>
      JsObject.set allProducts key (set_storeInfo installedInfo moduleInfo)
  | None =>
      JsObject.assign allProducts key (store_product moduleInfo product)
  end.

(** Body of the outer loop over [modules.storeList.values()]. *)
Definition add_store_module (allProducts : JsObject.t FuzzyProduct)
  (moduleInfo : ModuleStoreListCacheEntry) : JsObject.t FuzzyProduct :=
  fold_left (add_store_product moduleInfo) (sle_products moduleInfo) allProducts.

(** The mapping after the first loop. *)
Definition installed_phase (modules0 : ModuleInfoStore) : JsObject.t FuzzyProduct :=
  fold_left add_installed_module (map_values (modules modules0)) JsObject.empty.

(** The mapping after both loops. *)
Definition merged_object (modules0 : ModuleInfoStore) : JsObject.t FuzzyProduct :=
  fold_left add_store_module (map_values (storeList modules0))
    (installed_phase modules0).

(** [useAllConnectionProducts]: the computation under [useComputed]. *)
Definition useAllConnectionProducts (modules0 : ModuleInfoStore) : list FuzzyProduct :=
  JsObject.values (merged_object modules0).

(** ** Completions: a value or a thrown exception *)

(** The outcome of evaluating JavaScript code that may throw.  A thrown
    value is held by the text [e?.toString()] renders for it. *)
Inductive Completion (A : Type) : Type :=
| Normal (a : A)
| Throw (e : string).

Arguments Normal {A} a.
Arguments Throw {A} e.

Definition bind {A B : Type} (c : Completion A) (k : A -> Completion B)
  : Completion B :=
  match c with
  | Normal a => k a
  | Throw e => Throw e
  end.

Notation "x <- c ;; k" := (bind c (fun x => k))
  (at level 61, c at next level, right associativity).

(** ** The text filter *)

(** The options object handed to [fuzzysort.go]. *)
Record FuzzyOptions : Type := {
  opt_keys : list string;
  opt_threshold : Z
}.

(** One entry of the result of [fuzzysort.go]. *)
Record KeysResult : Type := {
  obj : FuzzyProduct;
  score : Z
}.

(** The signature of the external collaborator [fuzzysort.go]. *)
Definition FuzzySearch : Type :=
  string -> list FuzzyProduct -> FuzzyOptions -> Completion (list KeysResult).

(** [!s] for a string: only the empty string is falsy. *)
Definition falsy (s : string) : bool :=
  match s with
  | EmptyString => true
  | String _ _ => false
  end.

Definition filter_options : FuzzyOptions :=
  {| opt_keys := ["product"; "name"; "manufacturer"; "keywords"];
     opt_threshold := (-10000)%Z |}.

(** [filterProducts] *)
Definition filterProducts (fuzzySearch : FuzzySearch)
  (allProducts : list FuzzyProduct) (filter : string)
  : Completion (list FuzzyProduct) :=
  if falsy filter then Normal allProducts
  else
    results <- fuzzySearch filter allProducts filter_options ;;
    Normal (map obj results).

(** Reading the property [key] of a product, for the keys the filter
    passes to the ranking function. *)
Definition product_field (p : FuzzyProduct) (key : string) : option string :=
  if String.eqb key "product" then Some (product p)
  else if String.eqb key "name" then Some (name p)
  else if String.eqb key "manufacturer" then Some (manufacturer p)
  else if String.eqb key "keywords" then Some (keywords p)
  else if String.eqb key "id" then Some (id p)
  else if String.eqb key "shortname" then Some (shortname p)
  else None.

(** ** The candidates list of [AddConnectionsPanel] *)

(** The elements the candidates list holds. *)
Inductive Element : Type :=
| AddConnectionEntry (key : string) (moduleInfo : FuzzyProduct)
| CAlert (color : string) (children : list string).

(** [Array.prototype.sort(cmp)]: a stable sort, by insertion from the left. *)
Section Sort.
Context {A : Type} (cmp : A -> A -> Z).

Fixpoint insert_sorted (x : A) (l : list A) : list A :=
  match l with
  | [] => [x]
  | y :: l' =>
      if (cmp x y <? 0)%Z then x :: y :: l' else y :: insert_sorted x l'
  end.

Definition array_sort (l : list A) : list A :=
  fold_left (fun acc x => insert_sorted x acc) l [].
End Sort.

(** What a render of the panel produces for the results area, with the
    lines written to the console. *)
Record Candidates : Type := {
  candidates : list Element;
  console_errors : list string
}.

Section AddConnectionsPanel.
Variable fuzzySearch : FuzzySearch.
(** [String.prototype.toLocaleLowerCase] depends on the host locale. *)
Variable toLocaleLowerCase : string -> string.

(** The comparator given to [sort]. *)
Definition compare_names (a b : string * Element) : Z :=
  let aName := toLocaleLowerCase (fst a) in
  let bName := toLocaleLowerCase (fst b) in
  if String.ltb aName bName then (-1)%Z
  else if String.ltb bName aName then 1%Z
  else 0%Z.

(** [allProducts.filter((p) => !!p.installedInfo || typeFilter.visibility.available)] *)
Definition typeProducts (allProducts : list FuzzyProduct) (available : bool)
  : list FuzzyProduct :=
  filter (fun p => match installedInfo p with Some _ => true | None => false end
                   || available) allProducts.

(** The body of the [try] block. *)
Definition compile_candidates (products : list FuzzyProduct) (filter : string)
  : Completion (list Element) :=
  searchResults <- filterProducts fuzzySearch products filter ;;
  let candidatesObj :=
    fold_left (fun o moduleInfo =>
                 JsObject.assign o (name moduleInfo)
                   (AddConnectionEntry (name moduleInfo) moduleInfo))
      searchResults JsObject.empty in
  if falsy filter then
    Normal (map snd (array_sort compare_names (JsObject.entries candidatesObj)))
  else
    Normal (map snd (JsObject.entries candidatesObj)).

(** [try { ... } catch (e) { ... }]: on an exception the list is reset and
    the warning alert pushed onto it. *)
Definition build_candidates (products : list FuzzyProduct) (filter : string)
  : Candidates :=
  match compile_candidates products filter with
  | Normal cs => {| candidates := cs; console_errors := [] |}
  | Throw e =>
      {| candidates := [CAlert "warning" ["Failed to build list of modules:"; e]];
         console_errors := ["Failed to compile candidates list:"; e] |}
  end.

(** The candidates of a render of [AddConnectionsPanel]. *)
Definition panel_candidates (modules0 : ModuleInfoStore) (available : bool)
  (filter : string) : Candidates :=
  build_candidates
    (typeProducts (useAllConnectionProducts modules0) available) filter.
End AddConnectionsPanel.

(** The module entries among the elements of a candidates list. *)
Definition candidate_entries (cs : list Element) : list FuzzyProduct :=
  flat_map (fun c => match c with
                     | AddConnectionEntry _ m => [m]
                     | CAlert _ _ => []
                     end) cs.

Definition is_warning_banner (c : Element) : bool :=
  match c with
  | CAlert color _ => String.eqb color "warning"
  | AddConnectionEntry _ _ => false
  end.

(** ** The store-info subscription of [useModuleStoreInfo] *)

(** Modelled from the spec: [ModuleStoreModuleInfoStore] of
    [@companion-app/shared/Model/ModulesStore.js] is not part of the sources
    ("last-updated timestamp, optional update warning string"). *)
Record ModuleStoreModuleInfoStore : Type := {
  lastUpdated : Z;
  updateWarning : option string
}.

Module Subscription.

(** The requests sent with [socketEmitPromise]. *)
Inductive Request : Type :=
| Subscribe (moduleId : string)
| Unsubscribe (moduleId : string).

(** The variables one run of the effect past its guard closes over: the
    constant [moduleId] and the mutable [destroyed].  The three closures
    of the run ([updateCache], the [then] callback and the cleanup) share
    them, so they are held in a store and named by the number of the
    run. *)
Record EffectRun : Type := {
  run_moduleId : string;
  destroyed : bool
}.

(** The promises that are still pending. *)
Inductive Pending : Type :=
| PSubscribe (run : nat)
| PUnsubscribe (run : nat).

(** What the hook does, in program order. *)
Inductive Action : Type :=
| SetModuleStoreCache (v : option ModuleStoreModuleInfoStore)
| Emit (r : Request)
| SocketOn (run : nat)
| SocketOff (run : nat)
| ConsoleError (msg : string).

Record HookState : Type := {
  (** the [useState] cell, which is what the hook returns *)
  moduleStoreCache : option ModuleStoreModuleInfoStore;
  (** the [moduleId] of the last committed effect, [None] before mount *)
  deps : option (option string);
  unmounted : bool;
  runs : list EffectRun;
  (** the cleanup the last effect returned, if it returned one *)
  cleanup : option nat;
  (** the ['modules-store:info:data'] listeners on the socket *)
  listeners : list nat;
  pending : list Pending;
  actions : list Action
}.

Definition init : HookState :=
  {| moduleStoreCache := None; deps := None; unmounted := false; runs := [];
     cleanup := None; listeners := []; pending := []; actions := [] |}.

(** What happens to a mounted hook and its socket. *)
Inductive Event : Type :=
| Render (moduleId : option string)
| Unmount
| SubscribeResolved (run : nat) (data : option ModuleStoreModuleInfoStore)
| SubscribeRejected (run : nat) (err : string)
| UnsubscribeResolved (run : nat)
| UnsubscribeRejected (run : nat) (err : string)
| Push (msgModuleId : string) (data : ModuleStoreModuleInfoStore).

Definition pending_eqb (a b : Pending) : bool :=
  match a, b with
  | PSubscribe i, PSubscribe j => Nat.eqb i j
  | PUnsubscribe i, PUnsubscribe j => Nat.eqb i j
  | _, _ => false
  end.

Definition is_pending (p : Pending) (s : HookState) : bool :=
  existsb (pending_eqb p) (pending s).

Definition settle (p : Pending) (s : HookState) : HookState :=
  {| moduleStoreCache := moduleStoreCache s; deps := deps s;
     unmounted := unmounted s; runs := runs s; cleanup := cleanup s;
     listeners := listeners s;
     pending := filter (fun q => negb (pending_eqb p q)) (pending s);
     actions := actions s |}.

(** [setModuleStoreCache(v)] *)
Definition setModuleStoreCache (v : option ModuleStoreModuleInfoStore)
  (s : HookState) : HookState :=
  {| moduleStoreCache := v; deps := deps s; unmounted := unmounted s;
     runs := runs s; cleanup := cleanup s; listeners := listeners s;
     pending := pending s;
     actions := actions s ++ [SetModuleStoreCache v] |}.

(** [console.error(msg, err)] *)
Definition console_error (msg : string) (s : HookState) : HookState :=
  {| moduleStoreCache := moduleStoreCache s; deps := deps s;
     unmounted := unmounted s; runs := runs s; cleanup := cleanup s;
     listeners := listeners s; pending := pending s;
     actions := actions s ++ [ConsoleError msg] |}.

(** [socketEmitPromise(socket, ..., [moduleId])] *)
Definition emit (r : Request) (p : Pending) (s : HookState) : HookState :=
  {| moduleStoreCache := moduleStoreCache s; deps := deps s;
     unmounted := unmounted s; runs := runs s; cleanup := cleanup s;
     listeners := listeners s; pending := pending s ++ [p];
     actions := actions s ++ [Emit r] |}.

(** [socket.on('modules-store:info:data', updateCache)] *)
Definition socket_on (i : nat) (s : HookState) : HookState :=
  {| moduleStoreCache := moduleStoreCache s; deps := deps s;
     unmounted := unmounted s; runs := runs s; cleanup := cleanup s;
     listeners := listeners s ++ [i]; pending := pending s;
     actions := actions s ++ [SocketOn i] |}.

(** [socket.off('modules-store:info:data', updateCache)] *)
Definition socket_off (i : nat) (s : HookState) : HookState :=
  {| moduleStoreCache := moduleStoreCache s; deps := deps s;
     unmounted := unmounted s; runs := runs s; cleanup := cleanup s;
     listeners := filter (fun j => negb (Nat.eqb i j)) (listeners s);
     pending := pending s;
     actions := actions s ++ [SocketOff i] |}.

(** [let destroyed = false] of a new run of the effect. *)
Definition new_run (moduleId : string) (s : HookState) : HookState :=
  {| moduleStoreCache := moduleStoreCache s; deps := deps s;
     unmounted := unmounted s;
     runs := runs s ++ [{| run_moduleId := moduleId; destroyed := false |}];
     cleanup := cleanup s; listeners := listeners s; pending := pending s;
     actions := actions s |}.

Fixpoint mark_destroyed (i : nat) (l : list EffectRun) : list EffectRun :=
  match l, i with
  | [], _ => []
  | r :: l', O => {| run_moduleId := run_moduleId r; destroyed := true |} :: l'
  | r :: l', S i' => r :: mark_destroyed i' l'
  end.

(** [destroyed = true] *)
Definition set_destroyed (i : nat) (s : HookState) : HookState :=
  {| moduleStoreCache := moduleStoreCache s; deps := deps s;
     unmounted := unmounted s; runs := mark_destroyed i (runs s);
     cleanup := cleanup s; listeners := listeners s; pending := pending s;
     actions := actions s |}.

Definition set_cleanup (c : option nat) (s : HookState) : HookState :=
  {| moduleStoreCache := moduleStoreCache s; deps := deps s;
     unmounted := unmounted s; runs := runs s; cleanup := c;
     listeners := listeners s; pending := pending s; actions := actions s |}.

Definition set_deps (d : option string) (s : HookState) : HookState :=
  {| moduleStoreCache := moduleStoreCache s; deps := Some d;
     unmounted := unmounted s; runs := runs s; cleanup := cleanup s;
     listeners := listeners s; pending := pending s; actions := actions s |}.

Definition set_unmounted (s : HookState) : HookState :=
  {| moduleStoreCache := moduleStoreCache s; deps := deps s;
     unmounted := true; runs := runs s; cleanup := cleanup s;
     listeners := listeners s; pending := pending s; actions := actions s |}.

Definition is_destroyed (i : nat) (s : HookState) : bool :=
  match nth_error (runs s) i with
  | Some r => destroyed r
  | None => true
  end.

Definition moduleId_of (i : nat) (s : HookState) : string :=
  match nth_error (runs s) i with
  | Some r => run_moduleId r
  | None => ""
  end.

(** The body of the effect. *)
Definition effect (moduleId : option string) (s : HookState) : HookState :=
  match moduleId with
  | None => set_cleanup None (setModuleStoreCache None s)
  | Some m =>
      if falsy m then set_cleanup None (setModuleStoreCache None s)
      else
        let i := length (runs s) in
        set_cleanup (Some i)
          (socket_on i
             (emit (Subscribe m) (PSubscribe i)
                (setModuleStoreCache None (new_run m s))))
  end.

(** The function the effect returns. *)
Definition effect_cleanup (i : nat) (s : HookState) : HookState :=
  emit (Unsubscribe (moduleId_of i s)) (PUnsubscribe i)
    (setModuleStoreCache None (socket_off i (set_destroyed i s))).

Definition run_cleanup (s : HookState) : HookState :=
  match cleanup s with
  | Some i => set_cleanup None (effect_cleanup i s)
  | None => s
  end.

(** The callback given to [then]. *)
Definition on_subscribed (i : nat) (data : option ModuleStoreModuleInfoStore)
  (s : HookState) : HookState :=
  if is_destroyed i s then s else setModuleStoreCache data s.

(** [updateCache] of run [i]. *)
Definition updateCache (i : nat) (msgModuleId : string)
  (data : ModuleStoreModuleInfoStore) (s : HookState) : HookState :=
  if is_destroyed i s then s
  else if negb (String.eqb msgModuleId (moduleId_of i s)) then s
  else setModuleStoreCache (Some data) s.

(** The dependency comparison of [useEffect] on [moduleId] (the socket of
    the application context is the same object for the life of the
    hook). *)
Definition same_deps (a b : option string) : bool :=
  match a, b with
  | None, None => true
  | Some x, Some y => String.eqb x y
  | _, _ => false
  end.

(** One event of the single-threaded event loop.  [Render] is a render of
    the component followed by the commit of its effect: the cleanup of the
    previous effect and then the new effect run when [moduleId] differs from
    the one of the last commit, and on mount.  A promise settles once; an
    event for a promise that is not pending changes nothing. *)
Definition step (s : HookState) (e : Event) : HookState :=
  match e with
  | Render moduleId =>
      if unmounted s then s
      else match deps s with
           | None => effect moduleId (set_deps moduleId s)
           | Some d =>
               if same_deps d moduleId then s
               else effect moduleId (run_cleanup (set_deps moduleId s))
           end
  | Unmount =>
      if unmounted s then s
      else match deps s with
           | None => s
           | Some _ => set_unmounted (run_cleanup s)
           end
  | SubscribeResolved i data =>
      if is_pending (PSubscribe i) s
      then on_subscribed i data (settle (PSubscribe i) s)
      else s
  | SubscribeRejected i err =>
      if is_pending (PSubscribe i) s
      then console_error "Failed to subscribe to module store"
             (settle (PSubscribe i) s)
      else s
  | UnsubscribeResolved i =>
      if is_pending (PUnsubscribe i) s then settle (PUnsubscribe i) s else s
  | UnsubscribeRejected i err =>
      if is_pending (PUnsubscribe i) s
      then console_error "Failed to unsubscribe to module store"
             (settle (PUnsubscribe i) s)
      else s
  | Push msgModuleId data =>
      fold_left (fun st i => updateCache i msgModuleId data st) (listeners s) s
  end.

Definition run (s : HookState) (es : list Event) : HookState :=
  fold_left step es s.

(** The value a render of the hook returns in state [s]: the [useState]
    cell as the last commit left it. *)
Definition useModuleStoreInfo (s : HookState) : option ModuleStoreModuleInfoStore :=
  moduleStoreCache s.

(** The requests sent so far, oldest first. *)
Definition requests (s : HookState) : list Request :=
  flat_map (fun a => match a with Emit r => [r] | _ => [] end) (actions s).

Definition count_subscribes (l : list Request) : nat :=
  length (filter (fun r => match r with Subscribe _ => true | _ => false end) l).

Definition count_unsubscribes (l : list Request) : nat :=
  length (filter (fun r => match r with Unsubscribe _ => true | _ => false end) l).

(** The subscriptions the remote service holds for this hook. *)
Definition open_subscriptions (s : HookState) : nat :=
  count_subscribes (requests s) - count_unsubscribes (requests s).

(** The runs of the effect whose [destroyed] flag is still [false]. *)
Definition live_runs (s : HookState) : list EffectRun :=
  filter (fun r => negb (destroyed r)) (runs s).

(** The module identifier the hook is currently subscribed for. *)
Definition active_moduleId (s : HookState) : option string :=
  match cleanup s with
  | Some i => Some (moduleId_of i s)
  | None => None
  end.

(** [!moduleId]: the identifier is [undefined] or the empty string. *)
Definition absent (moduleId : option string) : bool :=
  match moduleId with
  | None => true
  | Some m => falsy m
  end.

(** The events on which React runs the cleanup of the last effect: the
    unmount, and a render with another [moduleId]. *)
Definition tears_down (s : HookState) (e : Event) : bool :=
  match e with
  | Unmount => true
  | Render moduleId =>
      match deps s with
      | Some d => negb (same_deps d moduleId)
      | None => false
      end
  | _ => false
  end.

(** Run [i] of the effect exists and its cleanup has run. *)
Definition torn_down (i : nat) (s : HookState) : Prop :=
  exists r, nth_error (runs s) i = Some r /\ destroyed r = true.


(** What holds of the runs, the listeners and the requests in every
    state the hook reaches. *)
Definition control_invariant (s : HookState) : Prop :=
  match cleanup s with
  | Some i =>
      is_destroyed i s = false
      /\ listeners s = [i]
      /\ falsy (moduleId_of i s) = false
      /\ (forall j, is_destroyed j s = false -> j = i)
      /\ count_subscribes (requests s) = S (count_unsubscribes (requests s))
  | None =>
      listeners s = []
      /\ (forall j, is_destroyed j s = true)
      /\ count_subscribes (requests s) = count_unsubscribes (requests s)
  end.

Definition lifecycle_invariant (s : HookState) : Prop :=
  match cleanup s with
  | Some i => unmounted s = false /\ deps s = Some (Some (moduleId_of i s))
  | None =>
      forall d, deps s = Some d -> unmounted s = false -> absent d = true
  end.

Definition invariant (s : HookState) : Prop :=
  control_invariant s /\ lifecycle_invariant s.


(** The actions of the effect body for [moduleId], as run number [i]. *)
Definition effect_actions (moduleId : option string) (i : nat) : list Action :=
  match moduleId with
  | Some m =>
      if falsy m then [SetModuleStoreCache None]
      else [SetModuleStoreCache None; Emit (Subscribe m); SocketOn i]
  | None => [SetModuleStoreCache None]
  end.

(** The actions of the cleanup of run [i], subscribed for [moduleId]. *)
Definition cleanup_actions (moduleId : string) (i : nat) : list Action :=
  [SocketOff i; SetModuleStoreCache None; Emit (Unsubscribe moduleId)].

(** Two states that differ at most in the cache, the pending promises and
    the actions that are not requests. *)
Definition same_control (s s' : HookState) : Prop :=
  deps s' = deps s /\ unmounted s' = unmounted s /\ runs s' = runs s
  /\ cleanup s' = cleanup s /\ listeners s' = listeners s
  /\ requests s' = requests s.

End Subscription.

(** ** Notions used to state the properties *)

(** Whether a key holds the separator of [composite_key]. *)
Fixpoint has_dash (s : string) : bool :=
  match s with
  | EmptyString => false
  | String c s' => Ascii.eqb c "-" || has_dash s'
  end.

(** The (module, product) pairs in the order the loops visit them. *)
Definition installed_pairs (modules0 : ModuleInfoStore)
  : list (NewClientModuleInfo * string) :=
  flat_map (fun m => map (fun p => (m, p)) (mdi_products (baseInfo m)))
    (map_values (modules modules0)).

Definition store_pairs (modules0 : ModuleInfoStore)
  : list (ModuleStoreListCacheEntry * string) :=
  flat_map (fun m => map (fun p => (m, p)) (sle_products m))
    (map_values (storeList modules0)).

Definition installed_key (mp : NewClientModuleInfo * string) : string :=
  composite_key (mdi_id (baseInfo (fst mp))) (snd mp).

Definition store_key (mp : ModuleStoreListCacheEntry * string) : string :=
  composite_key (sle_id (fst mp)) (snd mp).

(** The (module id, product) pair behind a composite key. *)
Definition installed_id_product (mp : NewClientModuleInfo * string)
  : string * string :=
  (mdi_id (baseInfo (fst mp)), snd mp).

Definition store_id_product (mp : ModuleStoreListCacheEntry * string)
  : string * string :=
  (sle_id (fst mp), snd mp).

(** Every composite key the two loops use, in loop order. *)
Definition all_keys (modules0 : ModuleInfoStore) : list string :=
  map installed_key (installed_pairs modules0)
  ++ map store_key (store_pairs modules0).

Definition all_id_products (modules0 : ModuleInfoStore) : list (string * string) :=
  map installed_id_product (installed_pairs modules0)
  ++ map store_id_product (store_pairs modules0).

(** The first and the last element of a list filed under a key. *)
Definition first_with {A : Type} (key : A -> string) (k : string) (l : list A)
  : option A :=
  find (fun a => String.eqb (key a) k) l.

Definition last_with {A : Type} (key : A -> string) (k : string) (l : list A)
  : option A :=
  first_with key k (rev l).

(** One step of a loop that files [a] under [key a]: update the value
    already there, or create one. *)
Definition attach {A V : Type} (key : A -> string) (upd : V -> A -> V)
  (mk : A -> V) (acc : JsObject.t V) (a : A) : JsObject.t V :=
  match JsObject.get acc (key a) with
  | Some r => JsObject.set acc (key a) (upd r a)
  | None => JsObject.set acc (key a) (mk a)
  end.

(** The second loop of the merger, one (store entry, product) pair at a
    time. *)
Definition attach_store
  : JsObject.t FuzzyProduct -> ModuleStoreListCacheEntry * string
    -> JsObject.t FuzzyProduct :=
  attach store_key (fun r mp => set_storeInfo r (fst mp))
    (fun mp => store_product (fst mp) (snd mp)).

Definition id_product_dec (a b : string * string) : {a = b} + {a <> b}.
Proof. decide equality; apply string_dec. Defined.

(** Two products agree on every field but [storeInfo]. *)
Definition same_but_storeInfo (r r' : FuzzyProduct) : Prop :=
  id r' = id r /\ product r' = product r /\ name r' = name r
  /\ manufacturer r' = manufacturer r /\ shortname r' = shortname r
  /\ keywords r' = keywords r /\ installedInfo r' = installedInfo r.

(** The invariant of the data model: one of the two infos is present. *)
Definition has_info (r : FuzzyProduct) : Prop :=
  installedInfo r <> None \/ storeInfo r <> None.

(** Distinct (module id, product) pairs of the inputs have distinct
    composite keys. *)
Definition keys_distinguish (modules0 : ModuleInfoStore) : Prop :=
  forall a b : string * string,
    In a (all_id_products modules0) -> In b (all_id_products modules0) ->
    composite_key (fst a) (snd a) = composite_key (fst b) (snd b) -> a = b.

(** ** The contract of the ranking function

    What the filter relies on from [fuzzysort.go]: it returns without
    throwing, and every result is one of the items, with at least one of the
    fields named by the [keys] option matching the query.  [matches] stands
    for the match test of the library. *)
Definition field_matches (matches : string -> string -> bool) (query : string)
  (keys : list string) (p : FuzzyProduct) : bool :=
  existsb (fun key => match product_field p key with
                      | Some text => matches query text
                      | None => false
                      end) keys.

Definition ranking_contract (matches : string -> string -> bool)
  (fuzzySearch : FuzzySearch) : Prop :=
  forall query items options,
  exists results,
    fuzzySearch query items options = Normal results
    /\ forall r, In r results ->
                 In (obj r) items
                 /\ field_matches matches query (opt_keys options) (obj r) = true.

(** ** Inputs used as scenarios *)
Module Examples.

Definition installed_module (module_id module_name : string)
  (products : list string) : NewClientModuleInfo :=
  {| baseInfo := {| mdi_id := module_id; mdi_name := module_name;
                    mdi_manufacturer := ""; mdi_shortname := "";
                    mdi_products := products; mdi_keywords := None |};
     stableVersion := None; prereleaseVersion := None;
     installedVersions := [] |}.

Definition store_entry (module_id module_name : string)
  (products : list string) : ModuleStoreListCacheEntry :=
  {| sle_id := module_id; sle_name := module_name; sle_manufacturer := "";
     sle_shortname := ""; sle_products := products; sle_keywords := None;
     storeUrl := ""; githubUrl := None |}.

(** installed = [{id:"x", products:["p1"], name:"Foo"}],
    store = [{id:"x", products:["p1","p2"], name:"Foo"}] *)
Definition scenario : ModuleInfoStore :=
  {| modules := [("x", installed_module "x" "Foo" ["p1"])];
     storeList := [("x", store_entry "x" "Foo" ["p1"; "p2"])] |}.

(** An installed module and a store entry with different ids and
    different products. *)
Definition disjoint : ModuleInfoStore :=
  {| modules := [("a", installed_module "a" "A" ["p"])];
     storeList := [("b", store_entry "b" "B" ["q"; "r"])] |}.

(** Two different (module id, product) pairs with one composite key:
    ["a-b"] with product ["c"], and ["a"] with product ["b-c"]. *)
Definition colliding : ModuleInfoStore :=
  {| modules := [("a-b", installed_module "a-b" "Installed" ["c"])];
     storeList := [("a", store_entry "a" "Store" ["b-c"])] |}.

(** The store names the module differently from the installed copy. *)
Definition renamed : ModuleInfoStore :=
  {| modules := [("x", installed_module "x" "Foo" ["p1"])];
     storeList := [("x", store_entry "x" "Foo (store)" ["p1"])] |}.

(** A ranking function that keeps the items one of whose fields holds
    the query as a substring. *)
Definition holds_substring (query text : string) : bool :=
  match String.index 0 query text with
  | Some _ => true
  | None => false
  end.

Definition substring_rank : FuzzySearch :=
  fun query items options =>
    Normal (map (fun p => {| obj := p; score := 0 |})
              (filter (field_matches holds_substring query (opt_keys options))
                 items)).

(** A ranking function that throws. *)
Definition throwing_rank : FuzzySearch :=
  fun _ _ _ => Throw "TypeError: Cannot read properties of undefined".

End Examples.

(** ** The rest of [AddConnectionsPanel]: the empty-state messages *)

(** The conditions under which the results area shows "No modules match
    your search." and "No modules are installed.". *)
Definition shows_no_match (cs : list Element) (allProducts : list FuzzyProduct)
  : bool :=
  (length cs =? 0)%nat && (0 <? length allProducts)%nat.

Definition shows_no_modules (cs : list Element) (allProducts : list FuzzyProduct)
  : bool :=
  (length cs =? 0)%nat && (length allProducts =? 0)%nat.

(** The key (and name) an element of the candidates list was built with. *)
Definition element_key (c : Element) : string :=
  match c with
  | AddConnectionEntry key _ => key
  | CAlert _ _ => ""
  end.

(** The object the loop over the search results of either list fills:
    [candidatesObj[key(moduleInfo)] = element(moduleInfo)]. *)
Definition built_object {A E : Type} (key : A -> string) (mkE : A -> E)
  (l : list A) : JsObject.t E :=
  fold_left (fun o a => JsObject.assign o (key a) (mkE a)) l JsObject.empty.

(** The element [AddConnectionsPanel] builds for a search result. *)
Definition entry_of (m : FuzzyProduct) : Element := AddConnectionEntry (name m) m.

(** ** The rows of [ModulesList] *)

Inductive ModulesListElement : Type :=
| ModulesListRow (key : string) (moduleInfo : FuzzyProduct) (isSelected : bool)
| ModulesListAlert (color : string) (children : list string).

Record Components : Type := {
  components : list ModulesListElement;
  components_errors : list string
}.

(** [new Set(ids).size] *)
Definition set_size (ids : list string) : nat :=
  length (nodup string_dec ids).

Section ModulesList.
Variable fuzzySearch : FuzzySearch.
Variable toLocaleLowerCase : string -> string.

(** The callback given to [allProducts.filter] in [ModulesList]. *)
Definition isVisible (installed available : bool) (p : FuzzyProduct) : bool :=
  let isVisible0 := false in
  let isVisible1 :=
    match installedInfo p with
    | Some info =>
        if (0 <? length (installedVersions info))%nat && installed then true
        else isVisible0
    | None => isVisible0
    end in
  match storeInfo p with
  | Some _ => if available then true else isVisible1
  | None => isVisible1
  end.

Definition visible_products (allProducts : list FuzzyProduct)
  (installed available : bool) : list FuzzyProduct :=
  filter (isVisible installed available) allProducts.

(** [moduleInfo.id === selectedModuleId], for [selectedModuleId: string | null]. *)
Definition is_selected (module_id : string) (selectedModuleId : option string)
  : bool :=
  match selectedModuleId with
  | Some selected => String.eqb module_id selected
  | None => false
  end.

(** The comparator given to [sort]. *)
Definition compare_ids (a b : string * ModulesListElement) : Z :=
  let aName := toLocaleLowerCase (fst a) in
  let bName := toLocaleLowerCase (fst b) in
  if String.ltb aName bName then (-1)%Z
  else if String.ltb bName aName then 1%Z
  else 0%Z.

(** The body of the [try] block. *)
Definition compile_components (products : list FuzzyProduct) (filter : string)
  (selectedModuleId : option string) : Completion (list ModulesListElement) :=
  searchResults <- filterProducts fuzzySearch products filter ;;
  let candidatesObj :=
    fold_left (fun o moduleInfo =>
                 JsObject.assign o (id moduleInfo)
                   (ModulesListRow (id moduleInfo) moduleInfo
                      (is_selected (id moduleInfo) selectedModuleId)))
      searchResults JsObject.empty in
  if falsy filter then
    Normal (map snd (array_sort compare_ids (JsObject.entries candidatesObj)))
  else
    Normal (map snd (JsObject.entries candidatesObj)).

Definition build_components (products : list FuzzyProduct) (filter : string)
  (selectedModuleId : option string) : Components :=
  match compile_components products filter selectedModuleId with
  | Normal cs => {| components := cs; components_errors := [] |}
  | Throw e =>
      {| components :=
           [ModulesListAlert "warning" ["Failed to build list of modules:"; e]];
         components_errors := ["Failed to compile candidates list:"; e] |}
  end.

(** [hiddenCount] *)
Definition hiddenCount (allProducts typeProducts0 : list FuzzyProduct) : Z :=
  (Z.of_nat (set_size (map id allProducts))
   - Z.of_nat (set_size (map id typeProducts0)))%Z.

(** The rows and the hidden count of a render of [ModulesList]. *)
Definition modules_list (modules0 : ModuleInfoStore) (installed available : bool)
  (filter : string) (selectedModuleId : option string) : Components * Z :=
  let allProducts := useAllConnectionProducts modules0 in
  let typeProducts0 := visible_products allProducts installed available in
  (build_components typeProducts0 filter selectedModuleId,
   hiddenCount allProducts typeProducts0).
End ModulesList.





(** ** Reading the request trace of the subscription *)

(** Reads a request trace from a state with the subscription [open]: a
    subscribe needs no open subscription, an unsubscribe needs the open
    subscription to be for the same module.  [None] when the trace breaks
    this, otherwise the subscription open at the end. *)
Fixpoint bracket (open : option string) (l : list Subscription.Request)
  : option (option string) :=
  match l with
  | [] => Some open
  | Subscription.Subscribe m :: l' =>
      match open with
      | None => bracket (Some m) l'
      | Some _ => None
      end
  | Subscription.Unsubscribe m :: l' =>
      match open with
      | Some m' => if String.eqb m m' then bracket None l' else None
      | None => None
      end
  end.

(** The module a request names. *)
Definition request_moduleId (r : Subscription.Request) : string :=
  match r with
  | Subscription.Subscribe m => m
  | Subscription.Unsubscribe m => m
  end.

(** A hook after its unmount. *)
Definition dead (s : Subscription.HookState) : Prop :=
  Subscription.unmounted s = true
  /\ Subscription.cleanup s = None
  /\ Subscription.listeners s = []
  /\ (forall j, Subscription.is_destroyed j s = true)
  /\ Subscription.moduleStoreCache s = None.

(** * Properties *)

(** ** Facts about objects *)
Module JsObjectFacts.
Import JsObject.

Section Facts.
Context {V : Type}.
Implicit Types (o : t V) (k : string) (v : V).

Lemma get_set_eq o k v : get (set o k v) k = Some v.
Proof.
  induction o as [|[k' v'] o IH]; simpl.
  - now rewrite String.eqb_refl.
  - destruct (String.eqb k' k) eqn:E; simpl; rewrite E; auto.
Qed.

Lemma get_set_ne o k k' v : k <> k' -> get (set o k v) k' = get o k'.
Proof.
  intros Hne. induction o as [|[k0 v0] o IH]; simpl.
  - apply String.eqb_neq in Hne. now rewrite Hne.
  - destruct (String.eqb k0 k) eqn:E; simpl.
    + apply String.eqb_eq in E; subst k0.
      apply String.eqb_neq in Hne. now rewrite Hne.
    + now rewrite IH.
Qed.

Lemma get_set o k k' v :
  get (set o k v) k' = if String.eqb k k' then Some v else get o k'.
Proof.
  destruct (String.eqb_spec k k') as [->|Hne].
  - apply get_set_eq.
  - now apply get_set_ne.
Qed.

Lemma get_None_keys o k : get o k = None <-> ~ In k (keys o).
Proof.
  induction o as [|[k' v'] o IH]; simpl.
  - tauto.
  - destruct (String.eqb_spec k' k) as [->|Hne].
    + split; [discriminate | tauto].
    + rewrite IH. tauto.
Qed.

Lemma get_Some_keys o k v : get o k = Some v -> In k (keys o).
Proof.
  intros H. destruct (in_dec string_dec k (keys o)) as [|Hn]; auto.
  apply get_None_keys in Hn. congruence.
Qed.

Lemma keys_set_present o k v :
  In k (keys o) -> keys (set o k v) = keys o.
Proof.
  induction o as [|[k' v'] o IH]; simpl; [tauto|].
  intros Hin. destruct (String.eqb_spec k' k) as [->|Hne]; simpl; auto.
  f_equal. apply IH. destruct Hin; congruence.
Qed.

Lemma keys_set_fresh o k v :
  ~ In k (keys o) -> keys (set o k v) = (keys o ++ [k])%list.
Proof.
  induction o as [|[k' v'] o IH]; simpl; auto.
  intros Hn. destruct (String.eqb_spec k' k) as [->|Hne]; simpl.
  - tauto.
  - f_equal. apply IH. tauto.
Qed.

Lemma in_keys_set o k v k' :
  In k' (keys (set o k v)) <-> k' = k \/ In k' (keys o).
Proof.
  destruct (in_dec string_dec k (keys o)) as [Hin|Hn].
  - rewrite keys_set_present by assumption.
    split; [tauto | intros [->|]; assumption].
  - rewrite keys_set_fresh by assumption. rewrite in_app_iff. simpl.
    split; [intros [|[|[]]]; auto | intros [->|]; auto].
Qed.

Lemma NoDup_keys_set o k v : NoDup (keys o) -> NoDup (keys (set o k v)).
Proof.
  intros Hnd. destruct (in_dec string_dec k (keys o)) as [Hin|Hn].
  - now rewrite keys_set_present.
  - rewrite keys_set_fresh by assumption.
    apply NoDup_app; [assumption | repeat constructor; simpl; tauto |].
    intros x Hx [<-|[]]. contradiction.
Qed.

Lemma in_set_values o k v x :
  In x (map snd (set o k v)) -> x = v \/ In x (map snd o).
Proof.
  induction o as [|[k' v'] o IH]; simpl.
  - intros [<-|[]]; auto.
  - destruct (String.eqb k' k); simpl; intros [<-|H]; auto.
    destruct (IH H); auto.
Qed.

Lemma get_in_values o k v : get o k = Some v -> In v (map snd o).
Proof.
  induction o as [|[k' v'] o IH]; simpl; [discriminate|].
  destruct (String.eqb k' k); [intros [= ->]; auto | auto].
Qed.

Lemma in_values_get o v :
  NoDup (keys o) -> In v (map snd o) -> exists k, get o k = Some v.
Proof.
  induction o as [|[k' v'] o IH]; simpl; [tauto|].
  intros Hnd [<-|Hin].
  - exists k'. now rewrite String.eqb_refl.
  - inversion Hnd as [|? ? Hk Hnd']; subst.
    destruct (IH Hnd' Hin) as [k Hk'].
    exists k. destruct (String.eqb_spec k' k) as [->|]; auto.
    exfalso. apply Hk. eapply get_Some_keys; eauto.
Qed.

(** Without array-index keys, enumeration follows creation order. *)
Lemma entries_creation_order o :
  (forall k, In k (keys o) -> is_array_index k = false) -> entries o = o.
Proof.
  intros H. unfold entries.
  assert (Hall : forall e, In e o -> is_array_index (fst e) = false).
  { intros e He. apply H. unfold keys. now apply in_map. }
  clear H.
  assert (Hsplit : filter (fun e => is_array_index (fst e)) o = []
                   /\ filter (fun e => negb (is_array_index (fst e))) o = o).
  { induction o as [|e o IH]; simpl; auto.
    rewrite (Hall e) by (simpl; auto). simpl.
    destruct IH as [IH1 IH2].
    - intros e' He'. apply Hall. simpl; auto.
    - split; [assumption | now f_equal]. }
  destruct Hsplit as [Hidx Hstr].
  now rewrite Hidx, Hstr.
Qed.
End Facts.

Lemma has_dash_app a b : has_dash (a ++ b) = has_dash a || has_dash b.
Proof.
  induction a as [|c a IH]; simpl; auto.
  rewrite IH. now rewrite orb_assoc.
Qed.

Lemma all_digits_no_dash s : all_digits s = true -> has_dash s = false.
Proof.
  induction s as [|c s IH]; simpl; auto.
  intros H. apply andb_true_iff in H as [Hc Hs].
  rewrite (IH Hs), orb_false_r.
  destruct (Ascii.eqb_spec c "-") as [->|]; [discriminate Hc | reflexivity].
Qed.

Lemma has_dash_not_index s : has_dash s = true -> is_array_index s = false.
Proof.
  intros H. unfold is_array_index, array_index.
  destruct s as [|c s]; auto.
  destruct (all_digits (String c s)) eqn:E; auto.
  apply all_digits_no_dash in E. congruence.
Qed.
End JsObjectFacts.

(** ** Folding a loop into an object *)
Module FoldFacts.
Import JsObject JsObjectFacts.

Lemma fold_left_nested {A B S : Type} (f : A -> S -> B -> S) (g : A -> list B)
  (l : list A) (acc : S) :
  fold_left (fun acc a => fold_left (f a) (g a) acc) l acc
  = fold_left (fun acc ab => f (fst ab) acc (snd ab))
      (flat_map (fun a => map (fun b => (a, b)) (g a)) l) acc.
Proof.
  revert acc. induction l as [|a l IH]; intros acc; simpl; auto.
  rewrite fold_left_app, <- IH. f_equal.
  generalize (g a) acc. clear.
  induction l as [|b l IH]; intros acc; simpl; auto.
Qed.

Lemma fold_left_pointwise {A S : Type} (f g : S -> A -> S) (l : list A) (acc : S) :
  (forall acc a, f acc a = g acc a) -> fold_left f l acc = fold_left g l acc.
Proof.
  intros H. revert acc. induction l as [|a l IH]; intros acc; simpl; auto.
  now rewrite H, IH.
Qed.

Section Keyed.
Context {A : Type} (key : A -> string).

Lemma first_with_snoc k l x :
  first_with key k (l ++ [x])
  = match first_with key k l with
    | Some a => Some a
    | None => if String.eqb (key x) k then Some x else None
    end.
Proof.
  unfold first_with. induction l as [|a l IH]; simpl; auto.
  destruct (String.eqb (key a) k); auto.
Qed.

Lemma last_with_snoc k l x :
  last_with key k (l ++ [x])
  = if String.eqb (key x) k then Some x else last_with key k l.
Proof. unfold last_with, first_with. now rewrite rev_app_distr. Qed.

Lemma first_with_None k l :
  first_with key k l = None <-> ~ In k (map key l).
Proof.
  unfold first_with. induction l as [|a l IH]; simpl; [tauto|].
  destruct (String.eqb_spec (key a) k) as [->|Hne].
  - split; [discriminate | tauto].
  - rewrite IH. tauto.
Qed.

Lemma last_with_None k l :
  last_with key k l = None <-> ~ In k (map key l).
Proof.
  unfold last_with. rewrite first_with_None, map_rev.
  split; intros H Hin; apply H; [now apply -> in_rev | now apply in_rev].
Qed.

Lemma first_with_key k l a : first_with key k l = Some a -> key a = k /\ In a l.
Proof.
  unfold first_with. intros H. apply find_some in H as [Hin Hk].
  now apply String.eqb_eq in Hk.
Qed.

Lemma last_with_key k l a : last_with key k l = Some a -> key a = k /\ In a l.
Proof.
  unfold last_with. intros H. apply first_with_key in H as [Hk Hin].
  split; [assumption | now apply in_rev].
Qed.

Lemma first_with_NoDup k l a :
  NoDup (map key l) -> In a l -> key a = k -> first_with key k l = Some a.
Proof.
  unfold first_with. induction l as [|b l IH]; simpl; [tauto|].
  intros Hnd [->|Hin] Hk.
  - subst k. now rewrite String.eqb_refl.
  - inversion Hnd as [|? ? Hb Hnd']; subst.
    destruct (String.eqb_spec (key b) (key a)) as [E|_]; auto.
    exfalso. apply Hb. rewrite E. now apply in_map.
Qed.

Lemma last_with_NoDup k l a :
  NoDup (map key l) -> In a l -> key a = k -> last_with key k l = Some a.
Proof.
  intros Hnd Hin Hk. unfold last_with. apply first_with_NoDup; auto.
  - rewrite map_rev. now apply NoDup_rev.
  - now apply -> in_rev.
Qed.

Section Sets.
Context {V : Type} (step : t V -> A -> t V).
Hypothesis step_sets : forall acc a, exists v, step acc a = set acc (key a) v.

Lemma in_keys_fold l o k :
  In k (keys (fold_left step l o)) <-> In k (keys o) \/ In k (map key l).
Proof.
  revert o. induction l as [|a l IH]; intros o; simpl; [tauto|].
  rewrite IH. destruct (step_sets o a) as [v ->].
  rewrite in_keys_set. intuition congruence.
Qed.

Lemma NoDup_keys_fold l o :
  NoDup (keys o) -> NoDup (keys (fold_left step l o)).
Proof.
  revert o. induction l as [|a l IH]; intros o Hnd; simpl; auto.
  apply IH. destruct (step_sets o a) as [v ->].
  now apply NoDup_keys_set.
Qed.

(** The keys of the result are the keys of the loop, each once and in
    the order of its first assignment. *)
Lemma keys_fold_fresh l o :
  NoDup (keys o ++ map key l) ->
  keys (fold_left step l o) = (keys o ++ map key l)%list.
Proof.
  revert o. induction l as [|a l IH]; intros o Hnd; simpl.
  - now rewrite app_nil_r.
  - destruct (step_sets o a) as [v Hv].
    assert (Hfresh : ~ In (key a) (keys o)).
    { intros Hin. apply NoDup_remove_2 in Hnd. apply Hnd.
      apply in_or_app. now left. }
    rewrite IH; rewrite Hv, keys_set_fresh by assumption.
    + now rewrite <- app_assoc.
    + now rewrite <- app_assoc.
Qed.

Lemma length_fold l :
  length (fold_left step l empty) = length (nodup string_dec (map key l)).
Proof.
  rewrite <- (length_map fst).
  apply Permutation_length, NoDup_Permutation.
  - apply NoDup_keys_fold. constructor.
  - apply NoDup_nodup.
  - intros k. fold (keys (fold_left step l empty)).
    rewrite in_keys_fold, nodup_In. simpl. tauto.
Qed.
End Sets.

Section Upsert.
Context {V : Type} (val : A -> V).

Lemma get_fold_set l (o : t V) k :
  get (fold_left (fun acc a => set acc (key a) (val a)) l o) k
  = match last_with key k l with
    | Some a => Some (val a)
    | None => get o k
    end.
Proof.
  induction l as [|x l IH] using rev_ind; simpl; auto.
  rewrite fold_left_app, last_with_snoc. simpl.
  rewrite get_set. destruct (String.eqb (key x) k); auto.
Qed.
End Upsert.

Section Attach.
Context {V : Type} (upd : V -> A -> V) (mk : A -> V).
Hypothesis upd_upd : forall r a a', upd (upd r a) a' = upd r a'.
Hypothesis upd_mk : forall a, upd (mk a) a = mk a.

Lemma attach_sets acc a : exists v, attach key upd mk acc a = set acc (key a) v.
Proof. unfold attach. destruct (get acc (key a)); eauto. Qed.

Lemma get_fold_attach l (o : t V) k :
  get (fold_left (attach key upd mk) l o) k
  = match get o k with
    | Some r =>
        Some (match last_with key k l with
              | Some a => upd r a
              | None => r
              end)
    | None =>
        match first_with key k l, last_with key k l with
        | Some a, Some a' => Some (upd (mk a) a')
        | _, _ => None
        end
    end.
Proof.
  induction l as [|x l IH] using rev_ind.
  - simpl. destruct (get o k); auto.
  - rewrite fold_left_app, last_with_snoc, first_with_snoc. simpl.
    set (F := fold_left (attach key upd mk) l o) in *.
    destruct (String.eqb_spec (key x) k) as [Hk|Hk].
    + subst k. unfold attach.
      destruct (get o (key x)) as [r0|] eqn:Ho; rewrite IH.
      * rewrite get_set_eq.
        destruct (last_with key (key x) l); now rewrite ?upd_upd.
      * destruct (first_with key (key x) l) as [a|] eqn:Hf.
        -- destruct (last_with key (key x) l) as [a'|] eqn:Hl.
           ++ now rewrite get_set_eq, upd_upd.
           ++ apply last_with_None in Hl. apply first_with_None in Hl.
              congruence.
        -- now rewrite get_set_eq, upd_mk.
    + destruct (attach_sets F x) as [v ->].
      rewrite get_set_ne, IH by assumption.
      destruct (get o k); auto.
      destruct (first_with key k l); auto.
Qed.
End Attach.
End Keyed.
End FoldFacts.

(** ** The merger *)
Module MergerFacts.
Import JsObject JsObjectFacts FoldFacts.

Lemma composite_key_has_dash a b : has_dash (composite_key a b) = true.
Proof.
  unfold composite_key. rewrite has_dash_app. simpl.
  now rewrite orb_true_r.
Qed.

(** A composite key is neither an array index nor a name inherited from
    [Object.prototype]: for the merged mapping [get] is [o[k]],
    [assign] is [set] and enumeration follows creation order. *)
Lemma composite_key_plain a b :
  is_array_index (composite_key a b) = false
  /\ ~ In (composite_key a b) object_prototype_names.
Proof.
  split.
  - apply has_dash_not_index, composite_key_has_dash.
  - intros Hin. pose proof (composite_key_has_dash a b) as Hd.
    unfold object_prototype_names in Hin. simpl in Hin.
    repeat (destruct Hin as [Hin|Hin];
            [rewrite <- Hin in Hd; discriminate Hd|]).
    destruct Hin.
Qed.

Lemma assign_composite {V : Type} (o : t V) a b v :
  assign o (composite_key a b) v = set o (composite_key a b) v.
Proof.
  unfold assign.
  destruct (String.eqb_spec (composite_key a b) "__proto__") as [E|]; auto.
  pose proof (composite_key_has_dash a b) as Hd.
  rewrite E in Hd. discriminate Hd.
Qed.

Lemma installed_phase_flat ms :
  installed_phase ms
  = fold_left (fun acc mp =>
                 set acc (installed_key mp)
                   (installed_product (fst mp) (snd mp)))
      (installed_pairs ms) empty.
Proof.
  unfold installed_phase, add_installed_module, installed_pairs.
  rewrite (fold_left_nested add_installed_product).
  apply fold_left_pointwise. intros acc [m p].
  unfold add_installed_product. simpl. apply assign_composite.
Qed.

Lemma merged_object_flat ms :
  merged_object ms
  = fold_left attach_store (store_pairs ms) (installed_phase ms).
Proof.
  unfold merged_object, add_store_module, store_pairs.
  rewrite (fold_left_nested add_store_product).
  apply fold_left_pointwise. intros acc [m p].
  unfold add_store_product, attach_store, attach, store_key. simpl.
  destruct (get acc (composite_key (sle_id m) p)); auto.
  apply assign_composite.
Qed.
End MergerFacts.

Module MergerLookup.
Import JsObject JsObjectFacts FoldFacts MergerFacts.

Lemma set_storeInfo_twice r (a a' : ModuleStoreListCacheEntry * string) :
  set_storeInfo (set_storeInfo r (fst a)) (fst a') = set_storeInfo r (fst a').
Proof. reflexivity. Qed.

Lemma set_storeInfo_store_product (a : ModuleStoreListCacheEntry * string) :
  set_storeInfo (store_product (fst a) (snd a)) (fst a)
  = store_product (fst a) (snd a).
Proof. reflexivity. Qed.

Lemma attach_store_sets acc a :
  exists v, attach_store acc a = set acc (store_key a) v.
Proof. apply attach_sets. Qed.

Lemma get_installed_phase ms k :
  get (installed_phase ms) k
  = match last_with installed_key k (installed_pairs ms) with
    | Some mp => Some (installed_product (fst mp) (snd mp))
    | None => None
    end.
Proof.
  rewrite installed_phase_flat.
  rewrite (get_fold_set installed_key
             (fun mp => installed_product (fst mp) (snd mp))).
  reflexivity.
Qed.

Lemma get_merged_object ms k :
  get (merged_object ms) k
  = match get (installed_phase ms) k with
    | Some r =>
        Some (match last_with store_key k (store_pairs ms) with
              | Some sp => set_storeInfo r (fst sp)
              | None => r
              end)
    | None =>
        match first_with store_key k (store_pairs ms),
              last_with store_key k (store_pairs ms) with
        | Some sp, Some sp' =>
            Some (set_storeInfo (store_product (fst sp) (snd sp)) (fst sp'))
        | _, _ => None
        end
    end.
Proof.
  rewrite merged_object_flat. unfold attach_store.
  apply get_fold_attach.
  - apply set_storeInfo_twice.
  - apply set_storeInfo_store_product.
Qed.

Lemma in_keys_installed_phase ms k :
  In k (keys (installed_phase ms))
  <-> In k (map installed_key (installed_pairs ms)).
Proof.
  rewrite installed_phase_flat.
  rewrite (in_keys_fold installed_key) by eauto.
  simpl. tauto.
Qed.

Lemma NoDup_keys_installed_phase ms : NoDup (keys (installed_phase ms)).
Proof.
  rewrite installed_phase_flat.
  apply (NoDup_keys_fold installed_key); [eauto | constructor].
Qed.

Lemma in_keys_merged ms k : In k (keys (merged_object ms)) <-> In k (all_keys ms).
Proof.
  rewrite merged_object_flat.
  rewrite (in_keys_fold store_key) by apply attach_store_sets.
  rewrite in_keys_installed_phase. unfold all_keys.
  now rewrite in_app_iff.
Qed.

Lemma NoDup_keys_merged ms : NoDup (keys (merged_object ms)).
Proof.
  rewrite merged_object_flat.
  apply (NoDup_keys_fold store_key); [apply attach_store_sets|].
  apply NoDup_keys_installed_phase.
Qed.

Lemma all_keys_plain ms k : In k (all_keys ms) -> is_array_index k = false.
Proof.
  unfold all_keys. rewrite in_app_iff, !in_map_iff.
  intros [[mp [<- _]]|[mp [<- _]]]; apply composite_key_plain.
Qed.

(** [Object.values] returns the merged records in creation order. *)
Lemma values_merged ms : useAllConnectionProducts ms = map snd (merged_object ms).
Proof.
  unfold useAllConnectionProducts, values.
  rewrite entries_creation_order; auto.
  intros k Hk. apply (all_keys_plain ms). now apply in_keys_merged.
Qed.

(** The merged list has one record per distinct composite key. *)
Lemma length_merged ms :
  length (useAllConnectionProducts ms) = length (nodup string_dec (all_keys ms)).
Proof.
  rewrite values_merged, length_map, <- (length_map fst).
  apply Permutation_length, NoDup_Permutation.
  - apply NoDup_keys_merged.
  - apply NoDup_nodup.
  - intros k. rewrite nodup_In. apply in_keys_merged.
Qed.

Lemma merged_record_shape ms k r :
  get (merged_object ms) k = Some r ->
  (exists mp, In mp (installed_pairs ms) /\ installed_key mp = k
              /\ same_but_storeInfo (installed_product (fst mp) (snd mp)) r)
  \/ (exists sp sp', In sp (store_pairs ms) /\ In sp' (store_pairs ms)
                     /\ store_key sp = k /\ store_key sp' = k
                     /\ r = set_storeInfo (store_product (fst sp) (snd sp)) (fst sp')).
Proof.
  rewrite get_merged_object, get_installed_phase.
  destruct (last_with installed_key k (installed_pairs ms)) as [mp|] eqn:Hi.
  - apply last_with_key in Hi as [Hk Hin].
    intros [= <-]. left. exists mp. repeat split; auto;
      destruct (last_with store_key k (store_pairs ms)); reflexivity.
  - destruct (first_with store_key k (store_pairs ms)) as [sp|] eqn:Hf;
      [|discriminate].
    destruct (last_with store_key k (store_pairs ms)) as [sp'|] eqn:Hl;
      [|discriminate].
    apply first_with_key in Hf as [Hk Hin].
    apply last_with_key in Hl as [Hk' Hin'].
    intros [= <-]. right. exists sp, sp'. repeat split; auto.
Qed.
End MergerLookup.

(** ** Properties of the product catalog merger *)
Section Merger.
Import JsObject JsObjectFacts FoldFacts MergerFacts MergerLookup.

(** C1. [useAllConnectionProducts] folds the installed modules first,
    filing under the composite key of each (module, product) pair a Product
    with [storeInfo] null, and then the store entries, attaching [storeInfo]
    to the record of a key that exists and creating a Product with
    [installedInfo] null otherwise.  Hence after the first loop the record under a composite key is the Product
    built from the last installed (module, product) pair with that key, and
    its [storeInfo] is null.  It then folds the store entries: a key the
    first loop created keeps its record and gets the [storeInfo] of the
    last store entry with that key attached; a key the first loop did not
    create gets a new Product, built from the first store entry with that
    key, whose [installedInfo] is null.  The result lists the records in
    creation order.  For installed = [{id:"x", products:["p1"], name:"Foo"}]
    and store = [{id:"x", products:["p1","p2"], name:"Foo"}] the result has
    exactly the two entries x-p1, with both infos set, and x-p2, with
    [installedInfo] null. *)
Theorem useAllConnectionProducts_folds :
  (forall ms : ModuleInfoStore,
      installed_phase ms
      = fold_left (fun acc mp =>
                     set acc (installed_key mp)
                       (installed_product (fst mp) (snd mp)))
          (installed_pairs ms) empty
      /\ merged_object ms
         = fold_left
             (fun acc sp =>
                match get acc (store_key sp) with
                | Some r => set acc (store_key sp) (set_storeInfo r (fst sp))
                | None => set acc (store_key sp) (store_product (fst sp) (snd sp))
                end)
             (store_pairs ms) (installed_phase ms)
      /\ (forall k,
          get (installed_phase ms) k
          = match last_with installed_key k (installed_pairs ms) with
            | Some mp => Some (installed_product (fst mp) (snd mp))
            | None => None
            end)
      /\ Forall (fun r => storeInfo r = None /\ installedInfo r <> None)
           (map snd (installed_phase ms))
      /\ (forall k,
             get (merged_object ms) k
             = match get (installed_phase ms) k with
               | Some r =>
                   Some (match last_with store_key k (store_pairs ms) with
                         | Some sp => set_storeInfo r (fst sp)
                         | None => r
                         end)
               | None =>
                   match first_with store_key k (store_pairs ms),
                         last_with store_key k (store_pairs ms) with
                   | Some sp, Some sp' =>
                       Some {| id := sle_id (fst sp);
                               installedInfo := None;
                               storeInfo := Some (fst sp');
                               product := snd sp;
                               keywords := join_keywords (sle_keywords (fst sp));
                               name := sle_name (fst sp);
                               manufacturer := sle_manufacturer (fst sp);
                               shortname := sle_shortname (fst sp) |}
                   | _, _ => None
                   end
               end)
      /\ useAllConnectionProducts ms = map snd (merged_object ms))
  /\ (let i := Examples.installed_module "x" "Foo" ["p1"] in
      let s := Examples.store_entry "x" "Foo" ["p1"; "p2"] in
      keys (merged_object Examples.scenario) = ["x-p1"; "x-p2"]
      /\ useAllConnectionProducts Examples.scenario
         = [ {| id := "x"; installedInfo := Some i; storeInfo := Some s;
                product := "p1"; keywords := ""; name := "Foo";
                manufacturer := ""; shortname := "" |};
             {| id := "x"; installedInfo := None; storeInfo := Some s;
                product := "p2"; keywords := ""; name := "Foo";
                manufacturer := ""; shortname := "" |} ]).
Proof.
  split; [|split; reflexivity].
  intros ms. repeat split.
  - apply installed_phase_flat.
  - apply merged_object_flat.
  - apply get_installed_phase.
  - apply Forall_forall. intros r Hr.
    destruct (in_values_get _ _ (NoDup_keys_installed_phase ms) Hr) as [k Hk].
    rewrite get_installed_phase in Hk.
    destruct (last_with installed_key k (installed_pairs ms));
      [|discriminate].
    injection Hk as <-. simpl. split; [reflexivity | discriminate].
  - intros k. apply get_merged_object.
  - apply values_merged.
Qed.

(** C2. Every Product record in the output of [useAllConnectionProducts]
    has at least one of [installedInfo] and [storeInfo] non-null. *)
Theorem merged_products_have_info (ms : ModuleInfoStore) :
  Forall has_info (useAllConnectionProducts ms).
Proof.
  rewrite values_merged. apply Forall_forall. intros r Hr.
  destruct (in_values_get _ _ (NoDup_keys_merged ms) Hr) as [k Hk].
  destruct (merged_record_shape _ _ _ Hk)
    as [(mp & _ & _ & Hsame)|(sp & sp' & _ & _ & _ & _ & ->)].
  - left. destruct Hsame as (_ & _ & _ & _ & _ & _ & ->). discriminate.
  - right. discriminate.
Qed.

Lemma NoDup_map_inj {A B : Type} (f : A -> B) (l : list A) :
  (forall a b, In a l -> In b l -> f a = f b -> a = b) ->
  NoDup l -> NoDup (map f l).
Proof.
  induction l as [|a l IH]; intros Hinj Hnd; simpl; constructor.
  - inversion Hnd as [|? ? Ha _]; subst. intros Hin.
    apply in_map_iff in Hin as (b & Hb & Hin).
    assert (b = a) by (apply Hinj; simpl; auto). subst b. contradiction.
  - inversion Hnd; subst. apply IH; auto.
    intros x y Hx Hy. apply Hinj; simpl; auto.
Qed.

Lemma all_keys_of_id_products ms :
  all_keys ms
  = map (fun q => composite_key (fst q) (snd q)) (all_id_products ms).
Proof.
  unfold all_keys, all_id_products.
  now rewrite map_app, !map_map.
Qed.

Lemma length_all_id_products ms :
  length (all_id_products ms)
  = length (installed_pairs ms) + length (store_pairs ms).
Proof. unfold all_id_products. now rewrite length_app, !length_map. Qed.

(** C5, as the code has it.  Provided distinct (module id, product) pairs
    of the two inputs have distinct composite keys [id-product]: when no
    pair occurs twice, within or across the two sources, the merged count
    is the sum of the two product counts; in general it is the number of
    distinct (module id, product) pairs; and (with or without the
    proviso) a composite key present in both sources has a record with
    both [installedInfo] and [storeInfo] populated. *)
Theorem merged_count (ms : ModuleInfoStore) :
  (keys_distinguish ms ->
   (NoDup (all_id_products ms) ->
    length (useAllConnectionProducts ms)
    = length (installed_pairs ms) + length (store_pairs ms))
   /\ length (useAllConnectionProducts ms)
      = length (nodup id_product_dec (all_id_products ms)))
  /\ (forall k,
         In k (map installed_key (installed_pairs ms)) ->
         In k (map store_key (store_pairs ms)) ->
         exists r, get (merged_object ms) k = Some r
                   /\ In r (useAllConnectionProducts ms)
                   /\ installedInfo r <> None /\ storeInfo r <> None).
Proof.
  split.
  - intros Hinj.
    assert (Hcount : length (useAllConnectionProducts ms)
                     = length (nodup id_product_dec (all_id_products ms))).
    { rewrite length_merged, all_keys_of_id_products.
      rewrite <- (length_map (fun q => composite_key (fst q) (snd q))
                    (nodup id_product_dec (all_id_products ms))).
      apply Permutation_length, NoDup_Permutation.
      - apply NoDup_nodup.
      - apply NoDup_map_inj; [|apply NoDup_nodup].
        intros a b Ha Hb. rewrite nodup_In in Ha, Hb. now apply Hinj.
      - intros k. rewrite nodup_In, !in_map_iff.
        split; intros (q & Hq & Hin); exists q; split; auto;
          [now apply nodup_In | now apply nodup_In in Hin]. }
    split; [|exact Hcount].
    intros Hnd. rewrite Hcount, nodup_fixed_point by assumption.
    apply length_all_id_products.
  - intros k Hi Hs.
    assert (Hget : exists r, get (merged_object ms) k = Some r
                             /\ installedInfo r <> None /\ storeInfo r <> None).
    { rewrite get_merged_object, get_installed_phase.
      destruct (last_with installed_key k (installed_pairs ms)) eqn:Hl.
      - destruct (last_with store_key k (store_pairs ms)) eqn:Hl'.
        + eexists. split; [reflexivity|]. simpl. split; discriminate.
        + apply last_with_None in Hl'. contradiction.
      - apply last_with_None in Hl. contradiction. }
    destruct Hget as (r & Hr & Hinfo). exists r. repeat split; try tauto.
    rewrite values_merged. eapply get_in_values; eauto.
Qed.

(** C7. When the composite key of a store entry is already in the
    accumulated mapping, the step of the second loop changes only the
    [storeInfo] of the record under that key: its [id], [product], [name],
    [manufacturer], [shortname], [keywords] and [installedInfo] are kept,
    whatever the store entry holds for them, and no other key or record of
    the mapping changes.  Hence in the merged mapping the record of a key
    of an installed product holds in those fields the values derived from
    the installed module. *)
Theorem store_attach_frame :
  (forall (acc : JsObject.t FuzzyProduct) (s : ModuleStoreListCacheEntry)
          (p : string) (r : FuzzyProduct),
      get acc (composite_key (sle_id s) p) = Some r ->
      exists r',
        get (add_store_product s acc p) (composite_key (sle_id s) p) = Some r'
        /\ same_but_storeInfo r r' /\ storeInfo r' = Some s
        /\ (forall k', k' <> composite_key (sle_id s) p ->
                       get (add_store_product s acc p) k' = get acc k')
        /\ keys (add_store_product s acc p) = keys acc)
  /\ (forall (ms : ModuleInfoStore) (k : string) (mp : NewClientModuleInfo * string),
         last_with installed_key k (installed_pairs ms) = Some mp ->
         exists r,
           get (merged_object ms) k = Some r
           /\ same_but_storeInfo (installed_product (fst mp) (snd mp)) r).
Proof.
  split.
  - intros acc s p r Hget. unfold add_store_product. simpl. rewrite Hget.
    exists (set_storeInfo r s). split; [apply get_set_eq|].
    split; [repeat split|]. split; [reflexivity|]. split.
    + intros k' Hne. apply get_set_ne. congruence.
    + apply keys_set_present. eapply get_Some_keys; eauto.
  - intros ms k mp Hl. rewrite get_merged_object, get_installed_phase, Hl.
    eexists. split; [reflexivity|].
    destruct (last_with store_key k (store_pairs ms)); repeat split.
Qed.
End Merger.

Section MergerWitnesses.
Import JsObject.

Lemma merged_count_witness :
  length (useAllConnectionProducts Examples.disjoint)
  = length (installed_pairs Examples.disjoint)
    + length (store_pairs Examples.disjoint)
  /\ length (useAllConnectionProducts Examples.scenario)
     = length (nodup id_product_dec (all_id_products Examples.scenario))
  /\ exists r, get (merged_object Examples.scenario) "x-p1" = Some r
               /\ In r (useAllConnectionProducts Examples.scenario)
               /\ installedInfo r <> None /\ storeInfo r <> None.
Proof.
  assert (Hd : keys_distinguish Examples.disjoint).
  { intros a b Ha Hb Hk. cbv in Ha, Hb.
    intuition (subst; try reflexivity; discriminate Hk). }
  assert (Hs : keys_distinguish Examples.scenario).
  { intros a b Ha Hb Hk. cbv in Ha, Hb.
    intuition (subst; try reflexivity; discriminate Hk). }
  split; [|split].
  - apply (proj1 (proj1 (merged_count Examples.disjoint) Hd)).
    cbv. repeat constructor; simpl; intuition discriminate.
  - exact (proj2 (proj1 (merged_count Examples.scenario) Hs)).
  - apply (proj2 (merged_count Examples.scenario)); cbv; auto.
Defined.

(** Against C5 as stated: an installed module ["a-b"] with product ["c"]
    and a store entry ["a"] with product ["b-c"] share no module id and no
    (id, product) pair, and merge into one record. *)
Lemma merged_count_collision :
  NoDup (all_id_products Examples.colliding)
  /\ length (installed_pairs Examples.colliding) = 1
  /\ length (store_pairs Examples.colliding) = 1
  /\ length (useAllConnectionProducts Examples.colliding) = 1
  /\ length (useAllConnectionProducts Examples.colliding)
     <> length (installed_pairs Examples.colliding)
        + length (store_pairs Examples.colliding)
  /\ length (useAllConnectionProducts Examples.colliding)
     <> length (nodup id_product_dec (all_id_products Examples.colliding)).
Proof.
  repeat split; try reflexivity; try (cbv; discriminate).
  cbv. repeat constructor; simpl; intuition discriminate.
Qed.

Lemma store_attach_frame_witness :
  (exists r',
      get (add_store_product (Examples.store_entry "x" "Foo (store)" ["p1"])
             (installed_phase Examples.renamed) "p1") "x-p1" = Some r'
      /\ name r' = "Foo"
      /\ storeInfo r' = Some (Examples.store_entry "x" "Foo (store)" ["p1"]))
  /\ (exists r, get (merged_object Examples.renamed) "x-p1" = Some r
                /\ name r = "Foo").
Proof.
  split.
  - destruct (proj1 store_attach_frame
                (installed_phase Examples.renamed)
                (Examples.store_entry "x" "Foo (store)" ["p1"]) "p1"
                (installed_product (Examples.installed_module "x" "Foo" ["p1"]) "p1")
                eq_refl)
      as (r' & Hget & Hsame & Hstore & _).
    exists r'. split; [exact Hget|]. split; [|exact Hstore].
    destruct Hsame as (_ & _ & Hname & _). exact Hname.
  - destruct (proj2 store_attach_frame Examples.renamed "x-p1"
                (Examples.installed_module "x" "Foo" ["p1"], "p1") eq_refl)
      as (r & Hget & Hsame).
    exists r. split; [exact Hget|].
    destruct Hsame as (_ & _ & Hname & _). exact Hname.
Defined.
End MergerWitnesses.

(** ** Properties of the text filter *)
Section TextFilter.
Variable fuzzySearch : FuzzySearch.

Lemma falsy_empty (s : string) : falsy s = true <-> s = "".
Proof. destruct s; simpl; split; congruence. Qed.

(** C4. With an empty query string [filterProducts] returns exactly its
    input list, the same elements in the same order; the ranking function
    is not consulted. *)
Theorem filterProducts_empty_query (allProducts : list FuzzyProduct) :
  filterProducts fuzzySearch allProducts "" = Normal allProducts.
Proof. reflexivity. Qed.

Lemma filterProducts_delegates (allProducts : list FuzzyProduct) (filter : string) :
  filter <> "" ->
  filterProducts fuzzySearch allProducts filter
  = (results <- fuzzySearch filter allProducts
                  {| opt_keys := ["product"; "name"; "manufacturer"; "keywords"];
                     opt_threshold := (-10000)%Z |} ;;
     Normal (map obj results)).
Proof.
  intros Hne. unfold filterProducts.
  destruct (falsy filter) eqn:E; [|reflexivity].
  apply falsy_empty in E. contradiction.
Qed.

Variable matches : string -> string -> bool.
Hypothesis fuzzySearch_contract : ranking_contract matches fuzzySearch.

(** C6. For a non-empty query [filterProducts] is the call of the ranking
    function on the query and the list, with the keys [product], [name],
    [manufacturer], [keywords] in this order, mapped to the ranked items.
    Under the contract of the ranking function it follows that a query
    matching none of these four fields of any product gives the empty
    list, and that on the empty list the filter returns the empty list
    and does not throw. *)
Theorem filterProducts_nonempty_query (allProducts : list FuzzyProduct)
  (filter : string) :
  filter <> "" ->
  filterProducts fuzzySearch allProducts filter
  = (results <- fuzzySearch filter allProducts
                  {| opt_keys := ["product"; "name"; "manufacturer"; "keywords"];
                     opt_threshold := (-10000)%Z |} ;;
     Normal (map obj results))
  /\ ((forall p, In p allProducts ->
                 matches filter (product p) = false
                 /\ matches filter (name p) = false
                 /\ matches filter (manufacturer p) = false
                 /\ matches filter (keywords p) = false) ->
      filterProducts fuzzySearch allProducts filter = Normal [])
  /\ filterProducts fuzzySearch [] filter = Normal [].
Proof.
  intros Hne.
  assert (Hsub : forall items,
             exists results,
               filterProducts fuzzySearch items filter = Normal (map obj results)
               /\ forall r, In r results ->
                            In (obj r) items
                            /\ field_matches matches filter
                                 (opt_keys filter_options) (obj r) = true).
  { intros items. rewrite filterProducts_delegates by assumption.
    destruct (fuzzySearch_contract filter items filter_options)
      as (results & Hres & Hall).
    exists results. fold filter_options. now rewrite Hres. }
  split; [now apply filterProducts_delegates|]. split.
  - intros Hnone. destruct (Hsub allProducts) as (results & -> & Hall).
    destruct results as [|r results]; [reflexivity|].
    destruct (Hall r (or_introl eq_refl)) as [Hin Hm].
    destruct (Hnone _ Hin) as (H1 & H2 & H3 & H4).
    unfold field_matches in Hm. simpl in Hm.
    rewrite H1, H2, H3, H4 in Hm. discriminate Hm.
  - destruct (Hsub []) as (results & -> & Hall).
    destruct results as [|r results]; [reflexivity|].
    destruct (Hall r (or_introl eq_refl)) as [[] _].
Qed.
End TextFilter.

Lemma substring_rank_contract :
  ranking_contract Examples.holds_substring Examples.substring_rank.
Proof.
  intros query items options. eexists. split; [reflexivity|].
  intros r Hr. apply in_map_iff in Hr as (p & <- & Hp).
  apply filter_In in Hp. exact Hp.
Qed.

Lemma filterProducts_nonempty_query_witness :
  filterProducts Examples.substring_rank
    (useAllConnectionProducts Examples.scenario) "zzz" = Normal []
  /\ filterProducts Examples.substring_rank [] "zzz" = Normal [].
Proof.
  assert (Hne : "zzz" <> "") by discriminate.
  destruct (filterProducts_nonempty_query Examples.substring_rank
              Examples.holds_substring substring_rank_contract
              (useAllConnectionProducts Examples.scenario) "zzz" Hne)
    as (_ & Hnone & Hnil).
  split.
  - apply Hnone. cbv. intuition (subst; auto).
  - destruct (filterProducts_nonempty_query Examples.substring_rank
                Examples.holds_substring substring_rank_contract [] "zzz" Hne)
      as (_ & _ & H).
    exact H.
Defined.

(** ** Properties of the candidates list *)
Section CandidatesList.
Variable fuzzySearch : FuzzySearch.
Variable toLocaleLowerCase : string -> string.

(** In the [try] block only the ranking function can throw: the entries
    are built from well-formed products. *)
Lemma compile_candidates_throws products filter e :
  compile_candidates fuzzySearch toLocaleLowerCase products filter = Throw e
  <-> filter <> "" /\ fuzzySearch filter products filter_options = Throw e.
Proof.
  unfold compile_candidates, filterProducts.
  destruct filter as [|c filter]; simpl.
  - split; [discriminate | intros [[] _]; reflexivity].
  - destruct (fuzzySearch (String c filter) products filter_options); simpl.
    + split; [discriminate | intros [_ H]; discriminate H].
    + split; [intros [= ->]; split; [discriminate | reflexivity]
             | intros [_ [= ->]]; reflexivity].
Qed.

(** C9. When building the candidates list throws, the exception is caught
    where the list is built: the render still produces a candidates list,
    which holds the warning banner with the text of the exception and
    nothing else, so it holds no module entry; the error is written to
    the console and is not propagated. *)
Theorem candidates_failure_is_banner (products : list FuzzyProduct)
  (filter e : string) :
  compile_candidates fuzzySearch toLocaleLowerCase products filter = Throw e ->
  let result := build_candidates fuzzySearch toLocaleLowerCase products filter in
  candidates result = [CAlert "warning" ["Failed to build list of modules:"; e]]
  /\ Forall (fun c => is_warning_banner c = true) (candidates result)
  /\ candidate_entries (candidates result) = []
  /\ console_errors result = ["Failed to compile candidates list:"; e].
Proof.
  intros Hthrow. unfold build_candidates. rewrite Hthrow. simpl.
  repeat split. repeat constructor.
Qed.
End CandidatesList.

Lemma candidates_failure_is_banner_witness :
  candidates
    (panel_candidates Examples.throwing_rank (fun s => s) Examples.scenario true "foo")
  = [CAlert "warning" ["Failed to build list of modules:";
                       "TypeError: Cannot read properties of undefined"]]
  /\ candidate_entries
       (candidates
          (panel_candidates Examples.throwing_rank (fun s => s)
             Examples.scenario true "foo")) = [].
Proof.
  destruct (candidates_failure_is_banner Examples.throwing_rank (fun s => s)
              (typeProducts (useAllConnectionProducts Examples.scenario) true)
              "foo" "TypeError: Cannot read properties of undefined" eq_refl)
    as (Hc & _ & He & _).
  split; [exact Hc | exact He].
Defined.

(** ** The subscription: invariants of the reachable states *)
Module SubscriptionFacts.
Import Subscription.

Lemma requests_app s l :
  flat_map (fun a => match a with Emit r => [r] | _ => [] end) (actions s ++ l)
  = (requests s
     ++ flat_map (fun a => match a with Emit r => [r] | _ => [] end) l)%list.
Proof. unfold requests. apply flat_map_app. Qed.

Lemma count_subscribes_app l l' :
  count_subscribes (l ++ l') = count_subscribes l + count_subscribes l'.
Proof. unfold count_subscribes. now rewrite filter_app, length_app. Qed.

Lemma count_unsubscribes_app l l' :
  count_unsubscribes (l ++ l') = count_unsubscribes l + count_unsubscribes l'.
Proof. unfold count_unsubscribes. now rewrite filter_app, length_app. Qed.

Lemma nth_error_mark_destroyed_eq i l :
  nth_error (mark_destroyed i l) i
  = match nth_error l i with
    | Some r => Some {| run_moduleId := run_moduleId r; destroyed := true |}
    | None => None
    end.
Proof.
  revert i. induction l as [|r l IH]; intros [|i]; simpl; auto.
Qed.

Lemma nth_error_mark_destroyed_ne i j l :
  i <> j -> nth_error (mark_destroyed i l) j = nth_error l j.
Proof.
  revert i j. induction l as [|r l IH]; intros [|i] [|j] Hne; simpl; auto.
  congruence.
Qed.

Lemma is_destroyed_in_range i s : is_destroyed i s = false -> i < length (runs s).
Proof.
  unfold is_destroyed. intros H. apply nth_error_Some.
  destruct (nth_error (runs s) i); congruence.
Qed.

(** *** States with the same control part *)

Lemma same_control_refl s : same_control s s.
Proof. repeat split. Qed.

Lemma same_control_trans s1 s2 s3 :
  same_control s1 s2 -> same_control s2 s3 -> same_control s1 s3.
Proof. unfold same_control. intuition congruence. Qed.

Lemma same_control_setModuleStoreCache v s :
  same_control s (setModuleStoreCache v s).
Proof.
  repeat split. unfold requests. simpl.
  rewrite requests_app. simpl. apply app_nil_r.
Qed.

Lemma same_control_console_error msg s : same_control s (console_error msg s).
Proof.
  repeat split. unfold requests. simpl.
  rewrite requests_app. simpl. apply app_nil_r.
Qed.

Lemma same_control_settle p s : same_control s (settle p s).
Proof. repeat split. Qed.

Lemma same_control_on_subscribed i data s : same_control s (on_subscribed i data s).
Proof.
  unfold on_subscribed. destruct (is_destroyed i s).
  - apply same_control_refl.
  - apply same_control_setModuleStoreCache.
Qed.

Lemma same_control_updateCache i msg data s :
  same_control s (updateCache i msg data s).
Proof.
  unfold updateCache. destruct (is_destroyed i s); [apply same_control_refl|].
  destruct (negb _); [apply same_control_refl|].
  apply same_control_setModuleStoreCache.
Qed.

Lemma same_control_push msg data l s :
  same_control s (fold_left (fun st i => updateCache i msg data st) l s).
Proof.
  revert s. induction l as [|i l IH]; intros s; simpl.
  - apply same_control_refl.
  - eapply same_control_trans; [apply same_control_updateCache | apply IH].
Qed.

Lemma same_control_is_destroyed s s' i :
  same_control s s' -> is_destroyed i s' = is_destroyed i s.
Proof. intros (_ & _ & Hr & _). unfold is_destroyed. now rewrite Hr. Qed.

Lemma same_control_moduleId_of s s' i :
  same_control s s' -> moduleId_of i s' = moduleId_of i s.
Proof. intros (_ & _ & Hr & _). unfold moduleId_of. now rewrite Hr. Qed.

Lemma control_same_control s s' :
  same_control s s' -> control_invariant s -> control_invariant s'.
Proof.
  intros Hsc Hc.
  assert (Hd : forall i, is_destroyed i s' = is_destroyed i s)
    by (intros i; now apply same_control_is_destroyed).
  assert (Hm : forall i, moduleId_of i s' = moduleId_of i s)
    by (intros i; now apply same_control_moduleId_of).
  destruct Hsc as (Hdeps & Hun & Hruns & Hcl & Hls & Hreq).
  unfold control_invariant in *. rewrite Hcl, Hls, Hreq.
  destruct (cleanup s) as [i|].
  - rewrite !Hm, Hd.
    destruct Hc as (H1 & H2 & H3 & H4 & H5). repeat split; auto.
    intros j Hj. apply H4. now rewrite <- Hd.
  - destruct Hc as (H1 & H2 & H3). repeat split; auto.
    intros j. now rewrite Hd.
Qed.

Lemma invariant_same_control s s' :
  same_control s s' -> invariant s -> invariant s'.
Proof.
  intros Hsc [Hc Hl]. split; [now apply (control_same_control s)|].
  assert (Hm : forall i, moduleId_of i s' = moduleId_of i s)
    by (intros i; now apply same_control_moduleId_of).
  destruct Hsc as (Hdeps & Hun & Hruns & Hcl & Hls & Hreq).
  unfold lifecycle_invariant in *. rewrite Hcl, Hdeps, Hun.
  destruct (cleanup s) as [i|]; [now rewrite Hm | assumption].
Qed.
End SubscriptionFacts.

Module SubscriptionSteps.
Import Subscription SubscriptionFacts.

(** What the cleanup of the live run does. *)
Lemma run_cleanup_live s i :
  control_invariant s -> cleanup s = Some i ->
  cleanup (run_cleanup s) = None
  /\ listeners (run_cleanup s) = []
  /\ (forall j, is_destroyed j (run_cleanup s) = true)
  /\ torn_down i (run_cleanup s)
  /\ moduleStoreCache (run_cleanup s) = None
  /\ actions (run_cleanup s)
     = (actions s ++ [SocketOff i; SetModuleStoreCache None;
                      Emit (Unsubscribe (moduleId_of i s))])%list
  /\ requests (run_cleanup s)
     = (requests s ++ [Unsubscribe (moduleId_of i s)])%list
  /\ deps (run_cleanup s) = deps s
  /\ unmounted (run_cleanup s) = unmounted s
  /\ length (runs (run_cleanup s)) = length (runs s).
Proof.
  intros Hc Hi. unfold control_invariant in Hc. rewrite Hi in Hc.
  destruct Hc as (Hlive & Hls & _ & Honly & _).
  unfold run_cleanup. rewrite Hi.
  assert (Hruns : runs (set_cleanup None (effect_cleanup i s))
                  = mark_destroyed i (runs s)) by reflexivity.
  assert (Hnth : exists r, nth_error (runs s) i = Some r).
  { unfold is_destroyed in Hlive.
    destruct (nth_error (runs s) i) as [r|]; [eauto | discriminate]. }
  destruct Hnth as [r Hr].
  split; [reflexivity|]. split.
  { simpl. rewrite Hls. simpl. now rewrite Nat.eqb_refl. }
  split.
  { intros j. unfold is_destroyed. rewrite Hruns.
    destruct (Nat.eq_dec i j) as [<-|Hne].
    - now rewrite nth_error_mark_destroyed_eq, Hr.
    - rewrite nth_error_mark_destroyed_ne by assumption.
      destruct (nth_error (runs s) j) as [rj|] eqn:Hj; [|reflexivity].
      destruct (destroyed rj) eqn:Hd; [reflexivity|].
      exfalso. apply Hne. symmetry. apply Honly.
      unfold is_destroyed. now rewrite Hj. }
  split.
  { unfold torn_down. rewrite Hruns, nth_error_mark_destroyed_eq, Hr. eauto. }
  split; [reflexivity|].
  assert (Hact : actions (set_cleanup None (effect_cleanup i s))
                 = (actions s ++ [SocketOff i; SetModuleStoreCache None;
                                  Emit (Unsubscribe (moduleId_of i s))])%list).
  { simpl. now rewrite <- !app_assoc. }
  split; [exact Hact|]. split.
  { unfold requests at 1. rewrite Hact, requests_app. reflexivity. }
  split; [reflexivity|]. split; [reflexivity|].
  rewrite Hruns. clear. revert i.
  induction (runs s) as [|r l IH]; intros [|i]; simpl; auto.
Qed.

Lemma run_cleanup_idle s :
  cleanup s = None -> run_cleanup s = s.
Proof. intros H. unfold run_cleanup. now rewrite H. Qed.

(** After the cleanup no run is live and the requests are balanced. *)
Lemma control_run_cleanup s :
  control_invariant s ->
  control_invariant (run_cleanup s) /\ cleanup (run_cleanup s) = None.
Proof.
  intros Hc. destruct (cleanup s) as [i|] eqn:Hi.
  - destruct (run_cleanup_live s i Hc Hi)
      as (Hcl & Hls & Hall & _ & _ & _ & Hreq & _).
    split; [|assumption].
    unfold control_invariant. rewrite Hcl, Hreq.
    repeat split; auto.
    unfold control_invariant in Hc. rewrite Hi in Hc.
    destruct Hc as (_ & _ & _ & _ & Hcount).
    rewrite count_subscribes_app, count_unsubscribes_app, Hcount.
    unfold count_subscribes, count_unsubscribes. simpl. lia.
  - rewrite run_cleanup_idle by assumption. auto.
Qed.

(** The effect of an absent identifier. *)
Lemma effect_absent moduleId s :
  absent moduleId = true ->
  effect moduleId s = set_cleanup None (setModuleStoreCache None s).
Proof.
  unfold effect, absent. destruct moduleId as [m|]; [|reflexivity].
  now intros ->.
Qed.

(** The effect of a present identifier. *)
Lemma effect_present m s :
  falsy m = false ->
  effect (Some m) s
  = set_cleanup (Some (length (runs s)))
      (socket_on (length (runs s))
         (emit (Subscribe m) (PSubscribe (length (runs s)))
            (setModuleStoreCache None (new_run m s)))).
Proof. unfold effect. now intros ->. Qed.

Lemma nth_error_new_run m s j :
  nth_error (runs s ++ [{| run_moduleId := m; destroyed := false |}]) j
  = if (j <? length (runs s))%nat then nth_error (runs s) j
    else if (j =? length (runs s))%nat
         then Some {| run_moduleId := m; destroyed := false |}
         else None.
Proof.
  destruct (Nat.ltb_spec j (length (runs s))) as [Hlt|Hge].
  - now apply nth_error_app1.
  - rewrite nth_error_app2 by assumption.
    destruct (Nat.eqb_spec j (length (runs s))) as [->|Hne].
    + now rewrite Nat.sub_diag.
    + destruct (j - length (runs s)) as [|[|n]] eqn:E; simpl; auto. lia.
Qed.

Lemma control_effect moduleId s :
  control_invariant s -> cleanup s = None ->
  control_invariant (effect moduleId s)
  /\ match cleanup (effect moduleId s) with
     | Some i => absent moduleId = false
                 /\ Some (moduleId_of i (effect moduleId s)) = moduleId
     | None => absent moduleId = true
     end.
Proof.
  intros Hc Hcl. unfold control_invariant in Hc. rewrite Hcl in Hc.
  destruct Hc as (Hls & Hall & Hcount).
  destruct (absent moduleId) eqn:Ha.
  - rewrite effect_absent by assumption. split; [|reflexivity].
    apply (control_same_control s).
    + eapply same_control_trans; [apply same_control_setModuleStoreCache|].
      repeat split. simpl. now rewrite Hcl.
    + unfold control_invariant. rewrite Hcl. auto.
  - destruct moduleId as [m|]; [|discriminate]. simpl in Ha.
    rewrite effect_present by assumption.
    set (i := length (runs s)).
    set (s' := set_cleanup (Some i) _).
    assert (Hruns : runs s'
                    = (runs s ++ [{| run_moduleId := m; destroyed := false |}])%list)
      by reflexivity.
    assert (Hmid : moduleId_of i s' = m).
    { unfold moduleId_of. rewrite Hruns, nth_error_new_run.
      unfold i. now rewrite Nat.ltb_irrefl, Nat.eqb_refl. }
    split;
      [|change (cleanup s') with (Some i); cbv beta iota;
        split; [reflexivity | now rewrite Hmid]].
    unfold control_invariant.
    change (cleanup s') with (Some i). cbv beta iota. rewrite Hmid.
    split.
    { unfold is_destroyed. rewrite Hruns, nth_error_new_run.
      unfold i. now rewrite Nat.ltb_irrefl, Nat.eqb_refl. }
    split; [simpl; now rewrite Hls|].
    split; [assumption|]. split.
    { intros j Hj. unfold is_destroyed in Hj.
      rewrite Hruns, nth_error_new_run in Hj.
      destruct (Nat.ltb_spec j (length (runs s))) as [Hlt|Hge].
      - specialize (Hall j). unfold is_destroyed in Hall. congruence.
      - destruct (Nat.eqb_spec j (length (runs s))); [assumption|discriminate]. }
    assert (Hreq : requests s' = (requests s ++ [Subscribe m])%list).
    { unfold requests at 1. simpl. rewrite <- !app_assoc.
      rewrite requests_app. reflexivity. }
    rewrite Hreq, count_subscribes_app, count_unsubscribes_app, Hcount.
    unfold count_subscribes, count_unsubscribes. simpl. lia.
Qed.
End SubscriptionSteps.

Module SubscriptionInvariant.
Import Subscription SubscriptionFacts SubscriptionSteps.

Lemma effect_frame moduleId s :
  deps (effect moduleId s) = deps s /\ unmounted (effect moduleId s) = unmounted s.
Proof.
  unfold effect. destruct moduleId as [m|]; [destruct (falsy m)|]; now split.
Qed.

Lemma run_cleanup_frame s :
  deps (run_cleanup s) = deps s /\ unmounted (run_cleanup s) = unmounted s.
Proof. unfold run_cleanup. destruct (cleanup s); now split. Qed.

Lemma invariant_effect moduleId s :
  control_invariant s -> cleanup s = None -> unmounted s = false ->
  deps s = Some moduleId ->
  invariant (effect moduleId s).
Proof.
  intros Hc Hcl Hun Hdeps.
  destruct (control_effect moduleId s Hc Hcl) as [Hc' Hshape].
  destruct (effect_frame moduleId s) as [Hd' Hu'].
  split; [assumption|].
  unfold lifecycle_invariant. rewrite Hd', Hu', Hdeps.
  destruct (cleanup (effect moduleId s)) as [i|].
  - destruct Hshape as [_ ->]. now split.
  - now intros d [= <-] _.
Qed.

Lemma lifecycle_no_deps s :
  lifecycle_invariant s -> deps s = None -> cleanup s = None.
Proof.
  unfold lifecycle_invariant. intros Hl Hd.
  destruct (cleanup s); [|reflexivity].
  destruct Hl as [_ Hl]. congruence.
Qed.

Lemma invariant_init : invariant init.
Proof.
  split.
  - repeat split. intros [|j]; reflexivity.
  - intros d Hd. discriminate Hd.
Qed.

Lemma invariant_step s e : invariant s -> invariant (step s e).
Proof.
  intros Hinv. pose proof Hinv as [Hc Hl].
  destruct e as [moduleId| |run0 data|run0 err|run0|run0 err|msg data]; simpl.
  - (* Render *)
    destruct (unmounted s) eqn:Hun; [assumption|].
    destruct (deps s) as [d|] eqn:Hd.
    + destruct (same_deps d moduleId); [assumption|].
      destruct (control_run_cleanup (set_deps moduleId s) Hc) as [Hc' Hcl'].
      destruct (run_cleanup_frame (set_deps moduleId s)) as [Hd' Hu'].
      apply invariant_effect; auto.
      rewrite Hu'. exact Hun.
    + apply invariant_effect; auto.
      apply (lifecycle_no_deps s); assumption.
  - (* Unmount *)
    destruct (unmounted s) eqn:Hun; [assumption|].
    destruct (deps s) as [d|] eqn:Hd; [|assumption].
    destruct (control_run_cleanup s Hc) as [Hc' Hcl'].
    split.
    + exact Hc'.
    + unfold lifecycle_invariant.
      change (cleanup (set_unmounted (run_cleanup s)))
        with (cleanup (run_cleanup s)).
      rewrite Hcl'. intros d' _ Hu. discriminate Hu.
  - (* SubscribeResolved *)
    destruct (is_pending (PSubscribe run0) s); [|assumption].
    eapply invariant_same_control; [|exact Hinv].
    eapply same_control_trans;
      [apply same_control_settle | apply same_control_on_subscribed].
  - (* SubscribeRejected *)
    destruct (is_pending (PSubscribe run0) s); [|assumption].
    eapply invariant_same_control; [|exact Hinv].
    eapply same_control_trans;
      [apply same_control_settle | apply same_control_console_error].
  - (* UnsubscribeResolved *)
    destruct (is_pending (PUnsubscribe run0) s); [|assumption].
    eapply invariant_same_control; [apply same_control_settle | exact Hinv].
  - (* UnsubscribeRejected *)
    destruct (is_pending (PUnsubscribe run0) s); [|assumption].
    eapply invariant_same_control; [|exact Hinv].
    eapply same_control_trans;
      [apply same_control_settle | apply same_control_console_error].
  - (* Push *)
    eapply invariant_same_control; [apply same_control_push | exact Hinv].
Qed.

Lemma invariant_run es s : invariant s -> invariant (run s es).
Proof.
  revert s. induction es as [|e es IH]; intros s Hinv; simpl; auto.
  apply IH. now apply invariant_step.
Qed.

Lemma invariant_reachable es : invariant (run init es).
Proof. apply invariant_run, invariant_init. Qed.

(** A run that was torn down stays torn down. *)
Lemma torn_down_new_run i m s : torn_down i s -> torn_down i (new_run m s).
Proof.
  intros (r & Hr & Hd). exists r. split; [|assumption].
  simpl. rewrite nth_error_app1; [assumption|].
  apply nth_error_Some. congruence.
Qed.

Lemma torn_down_mark_destroyed i j (s s' : HookState) :
  runs s' = mark_destroyed j (runs s) -> torn_down i s -> torn_down i s'.
Proof.
  intros Hruns (r & Hr & Hd). unfold torn_down. rewrite Hruns.
  destruct (Nat.eq_dec j i) as [->|Hne].
  - rewrite nth_error_mark_destroyed_eq, Hr. eauto.
  - rewrite nth_error_mark_destroyed_ne by assumption. eauto.
Qed.

Lemma torn_down_same_runs i (s s' : HookState) :
  runs s' = runs s -> torn_down i s -> torn_down i s'.
Proof. unfold torn_down. now intros ->. Qed.

Lemma torn_down_run_cleanup i s : torn_down i s -> torn_down i (run_cleanup s).
Proof.
  unfold run_cleanup. destruct (cleanup s) as [j|]; [|auto].
  apply (torn_down_mark_destroyed i j). reflexivity.
Qed.

Lemma torn_down_effect i moduleId s : torn_down i s -> torn_down i (effect moduleId s).
Proof.
  intros H. unfold effect.
  destruct moduleId as [m|]; [destruct (falsy m)|];
    try (revert H; apply torn_down_same_runs; reflexivity).
  apply (torn_down_same_runs i (new_run m s)); [reflexivity|].
  now apply torn_down_new_run.
Qed.

Lemma torn_down_step i s e : torn_down i s -> torn_down i (step s e).
Proof.
  intros H.
  destruct e as [moduleId| |run0 data|run0 err|run0|run0 err|msg data]; simpl.
  - destruct (unmounted s); [assumption|].
    destruct (deps s) as [d|].
    + destruct (same_deps d moduleId); [assumption|].
      apply torn_down_effect, torn_down_run_cleanup.
      revert H. apply torn_down_same_runs. reflexivity.
    + apply torn_down_effect. revert H. apply torn_down_same_runs. reflexivity.
  - destruct (unmounted s); [assumption|].
    destruct (deps s); [|assumption].
    apply (torn_down_same_runs i (run_cleanup s)); [reflexivity|].
    now apply torn_down_run_cleanup.
  - destruct (is_pending _ s); [|assumption].
    revert H. apply torn_down_same_runs.
    apply (same_control_trans _ _ _ (same_control_settle _ s)
             (same_control_on_subscribed _ _ _)).
  - destruct (is_pending _ s); [|assumption].
    revert H. apply torn_down_same_runs. reflexivity.
  - destruct (is_pending _ s); [|assumption].
    revert H. apply torn_down_same_runs. reflexivity.
  - destruct (is_pending _ s); [|assumption].
    revert H. apply torn_down_same_runs. reflexivity.
  - revert H. apply torn_down_same_runs. apply same_control_push.
Qed.

Lemma torn_down_run i es s : torn_down i s -> torn_down i (run s es).
Proof.
  revert s. induction es as [|e es IH]; intros s H; simpl; auto.
  apply IH. now apply torn_down_step.
Qed.

Lemma torn_down_is_destroyed i s : torn_down i s -> is_destroyed i s = true.
Proof. intros (r & Hr & Hd). unfold is_destroyed. now rewrite Hr. Qed.
End SubscriptionInvariant.

(** ** Properties of the store-info subscription *)
Section StoreInfoSubscription.
Import Subscription SubscriptionFacts SubscriptionSteps SubscriptionInvariant.

Lemma same_deps_spec a b : same_deps a b = true <-> a = b.
Proof.
  destruct a as [x|], b as [y|]; simpl; try (split; congruence).
  rewrite String.eqb_eq. split; congruence.
Qed.

Lemma filter_at_most_one {A : Type} (P : A -> bool) (l : list A) :
  (forall j k a b, nth_error l j = Some a -> nth_error l k = Some b ->
                   P a = true -> P b = true -> j = k) ->
  length (filter P l) <= 1.
Proof.
  induction l as [|x l IH]; intros Huniq; simpl; [lia|].
  destruct (P x) eqn:Hx.
  - assert (Hnone : filter P l = []).
    { destruct (filter P l) as [|y l'] eqn:Hf; [reflexivity|].
      assert (Hy : In y (filter P l)) by (rewrite Hf; simpl; auto).
      apply filter_In in Hy as [Hin Hy].
      apply In_nth_error in Hin as [k Hk].
      specialize (Huniq 0 (S k) x y eq_refl Hk Hx Hy). discriminate. }
    rewrite Hnone. simpl. lia.
  - apply IH. intros j k a b Hj Hk Ha Hb.
    specialize (Huniq (S j) (S k) a b Hj Hk Ha Hb). lia.
Qed.

Lemma live_runs_at_most_one s : control_invariant s -> length (live_runs s) <= 1.
Proof.
  intros Hc. unfold live_runs. apply filter_at_most_one.
  intros j k a b Hj Hk Ha Hb.
  apply negb_true_iff in Ha, Hb.
  assert (Hdj : is_destroyed j s = false) by (unfold is_destroyed; now rewrite Hj).
  assert (Hdk : is_destroyed k s = false) by (unfold is_destroyed; now rewrite Hk).
  unfold control_invariant in Hc. destruct (cleanup s) as [i|].
  - destruct Hc as (_ & _ & _ & Honly & _).
    rewrite (Honly j Hdj), (Honly k Hdk). reflexivity.
  - destruct Hc as (_ & Hall & _). rewrite Hall in Hdj. discriminate.
Qed.

Lemma teardown_destroys s i e :
  invariant s -> cleanup s = Some i -> tears_down s e = true ->
  torn_down i (step s e).
Proof.
  intros [Hc Hl] Hi Ht.
  unfold lifecycle_invariant in Hl. rewrite Hi in Hl. destruct Hl as [Hun Hd].
  destruct e as [moduleId| |? ?|? ?|?|? ?|? ?]; try discriminate Ht; simpl.
  - simpl in Ht. rewrite Hun, Hd in *.
    apply negb_true_iff in Ht. rewrite Ht.
    apply torn_down_effect.
    apply (run_cleanup_live (set_deps moduleId s) i Hc Hi).
  - rewrite Hun, Hd.
    apply (torn_down_same_runs i (run_cleanup s)); [reflexivity|].
    apply (run_cleanup_live s i Hc Hi).
Qed.

(** C3. In every state the hook reaches: once the run of the effect that
    subscribed for a module is torn down, by a render with another module
    identifier or by the unmount, its response, whenever it arrives
    afterwards, leaves the displayed state as it is; a push notification
    whose module identifier is not the active one leaves the displayed
    state as it is; and at most one subscription is active: at most one
    listener is registered, at most one run of the effect is not
    destroyed, and the subscribe requests sent exceed the unsubscribe
    requests by at most one. *)
Theorem stale_results_discarded (es : list Event) :
  (forall i e es' data,
      cleanup (run init es) = Some i ->
      tears_down (run init es) e = true ->
      moduleStoreCache
        (step (run (step (run init es) e) es') (SubscribeResolved i data))
      = moduleStoreCache (run (step (run init es) e) es'))
  /\ (forall msgModuleId data,
         active_moduleId (run init es) <> Some msgModuleId ->
         moduleStoreCache (step (run init es) (Push msgModuleId data))
         = moduleStoreCache (run init es))
  /\ length (listeners (run init es)) <= 1
  /\ length (live_runs (run init es)) <= 1
  /\ open_subscriptions (run init es) <= 1.
Proof.
  pose proof (invariant_reachable es) as Hinv.
  set (s := run init es) in *. pose proof Hinv as [Hc Hl].
  split; [|split; [|split; [|split]]].
  - intros i e es' data Hi Ht.
    pose proof (teardown_destroys s i e Hinv Hi Ht) as Htd.
    apply (torn_down_run i es') in Htd.
    set (s' := run (step s e) es') in *. simpl.
    destruct (is_pending (PSubscribe i) s'); [|reflexivity].
    unfold on_subscribed.
    change (is_destroyed i (settle (PSubscribe i) s')) with (is_destroyed i s').
    now rewrite (torn_down_is_destroyed i s' Htd).
  - intros msg data Hmsg. simpl.
    unfold control_invariant in Hc. unfold active_moduleId in Hmsg.
    destruct (cleanup s) as [i|].
    + destruct Hc as (Hlive & -> & _). simpl.
      unfold updateCache. rewrite Hlive.
      destruct (String.eqb_spec msg (moduleId_of i s)) as [E|_];
        [|reflexivity].
      exfalso. apply Hmsg. now rewrite E.
    + destruct Hc as (-> & _). reflexivity.
  - unfold control_invariant in Hc. destruct (cleanup s) as [i|].
    + destruct Hc as (_ & -> & _). simpl. lia.
    + destruct Hc as (-> & _). simpl. lia.
  - now apply live_runs_at_most_one.
  - unfold open_subscriptions, control_invariant in *.
    destruct (cleanup s) as [i|].
    + destruct Hc as (_ & _ & _ & _ & ->). lia.
    + destruct Hc as (_ & _ & ->). lia.
Qed.
End StoreInfoSubscription.

Section SubscriptionTeardown.
Import Subscription SubscriptionFacts SubscriptionSteps SubscriptionInvariant.

Lemma effect_actions_spec moduleId s :
  actions (effect moduleId s)
  = (actions s ++ effect_actions moduleId (length (runs s)))%list
  /\ moduleStoreCache (effect moduleId s) = None.
Proof.
  unfold effect, effect_actions.
  destruct moduleId as [m|]; [destruct (falsy m)|]; simpl; split; auto.
  now rewrite <- !app_assoc.
Qed.

Lemma present_is_live s m :
  invariant s -> unmounted s = false -> deps s = Some (Some m) -> m <> "" ->
  exists i, cleanup s = Some i /\ moduleId_of i s = m.
Proof.
  intros [Hc Hl] Hun Hd Hm. unfold lifecycle_invariant in Hl.
  destruct (cleanup s) as [i|].
  - exists i. split; [reflexivity|]. destruct Hl as [_ Hl]. congruence.
  - specialize (Hl _ Hd Hun). simpl in Hl.
    apply falsy_empty in Hl. contradiction.
Qed.

(** C8, as the code has it.  In every state the hook reaches with a
    present (defined, non-empty) module identifier [a]: the unmount
    removes the listener, resets the cached state to null and sends the
    unsubscribe request for [a]; a render with another module identifier
    does the same and only then runs the new effect, which resets the
    cached state to null again before it sends its subscribe request, if
    it sends one.  In any state a failed unsubscribe request is written to
    the console and changes nothing else of the hook. *)
Theorem teardown_unsubscribes :
  (forall (es : list Event) (a : string),
      unmounted (run init es) = false ->
      deps (run init es) = Some (Some a) ->
      a <> "" ->
      exists i,
        cleanup (run init es) = Some i
        /\ moduleId_of i (run init es) = a
        /\ actions (step (run init es) Unmount)
           = (actions (run init es) ++ cleanup_actions a i)%list
        /\ moduleStoreCache (step (run init es) Unmount) = None
        /\ forall moduleId,
            moduleId <> Some a ->
            actions (step (run init es) (Render moduleId))
            = (actions (run init es) ++ cleanup_actions a i
               ++ effect_actions moduleId (length (runs (run init es))))%list
            /\ moduleStoreCache (step (run init es) (Render moduleId)) = None)
  /\ (forall (s : HookState) (i : nat) (err : string),
         same_control s (step s (UnsubscribeRejected i err))
         /\ moduleStoreCache (step s (UnsubscribeRejected i err))
            = moduleStoreCache s
         /\ (actions (step s (UnsubscribeRejected i err)) = actions s
             \/ actions (step s (UnsubscribeRejected i err))
                = (actions s
                   ++ [ConsoleError "Failed to unsubscribe to module store"])%list)).
Proof.
  split.
  - intros es a. pose proof (invariant_reachable es) as Hinv.
    set (s := run init es) in *. intros Hun Hd Ha.
    destruct (present_is_live s a Hinv Hun Hd Ha) as (i & Hi & Hm).
    pose proof Hinv as [Hc _].
    exists i. split; [assumption|]. split; [assumption|].
    destruct (run_cleanup_live s i Hc Hi)
      as (_ & _ & _ & _ & Hcache & Hact & _).
    split; [|split].
    + simpl. rewrite Hun, Hd. simpl. rewrite Hact, Hm. reflexivity.
    + simpl. rewrite Hun, Hd. exact Hcache.
    + intros moduleId Hne. simpl. rewrite Hun, Hd.
      assert (Hsd : same_deps (Some a) moduleId = false).
      { destruct (same_deps (Some a) moduleId) eqn:E; [|reflexivity].
        apply same_deps_spec in E. congruence. }
      rewrite Hsd.
      destruct (effect_actions_spec moduleId (run_cleanup (set_deps moduleId s)))
        as [Hea Hec].
      split; [|exact Hec].
      rewrite Hea.
      destruct (run_cleanup_live (set_deps moduleId s) i Hc Hi)
        as (_ & _ & _ & _ & _ & Hact' & _ & _ & _ & Hlen).
      rewrite Hact', Hlen. simpl actions. simpl runs.
      change (moduleId_of i (set_deps moduleId s)) with (moduleId_of i s).
      rewrite Hm. unfold cleanup_actions. now rewrite <- app_assoc.
  - intros s i err. simpl.
    destruct (is_pending (PUnsubscribe i) s).
    + split; [|split; [reflexivity | right; reflexivity]].
      eapply same_control_trans;
        [apply same_control_settle | apply same_control_console_error].
    + split; [apply same_control_refl | split; [reflexivity | now left]].
Qed.

Lemma teardown_unsubscribes_witness :
  actions (run init [Render (Some "A"); Render (Some "B")])
  = [SetModuleStoreCache None; Emit (Subscribe "A"); SocketOn 0;
     SocketOff 0; SetModuleStoreCache None; Emit (Unsubscribe "A");
     SetModuleStoreCache None; Emit (Subscribe "B"); SocketOn 1]
  /\ actions (run init [Render (Some "A"); Unmount])
     = [SetModuleStoreCache None; Emit (Subscribe "A"); SocketOn 0;
        SocketOff 0; SetModuleStoreCache None; Emit (Unsubscribe "A")].
Proof.
  assert (Ha : "A" <> "") by discriminate.
  destruct (proj1 teardown_unsubscribes [Render (Some "A")] "A"
              eq_refl eq_refl Ha)
    as (i & Hi & _ & Hun & _ & Hre).
  injection Hi as <-.
  split.
  - assert (Hne : Some "B" <> Some "A") by discriminate.
    exact (proj1 (Hre (Some "B") Hne)).
  - exact Hun.
Defined.

(** Against C8 as stated: under an absent module identifier neither a
    change of the identifier nor the unmount sends an unsubscribe
    request. *)
Lemma no_unsubscribe_for_absent_identifier :
  requests (run init [Render None; Render (Some "B")]) = [Subscribe "B"]
  /\ requests (run init [Render None; Unmount]) = []
  /\ requests (run init [Render (Some ""); Unmount]) = [].
Proof. repeat split. Qed.



(** Without a live subscription the hook shows no data. *)
Lemma quiet_step s e :
  invariant s ->
  (cleanup s = None -> moduleStoreCache s = None) ->
  cleanup (step s e) = None -> moduleStoreCache (step s e) = None.
Proof.
  intros [Hc Hl] Hq.
  destruct e as [moduleId| |i data|i err|i|i err|msg data]; simpl.
  - destruct (unmounted s); [assumption|].
    destruct (deps s) as [d|].
    + destruct (same_deps d moduleId); [assumption|].
      intros _. apply effect_actions_spec.
    + intros _. apply effect_actions_spec.
  - destruct (unmounted s); [assumption|].
    destruct (deps s); [|assumption].
    intros _. change (moduleStoreCache (set_unmounted (run_cleanup s)))
      with (moduleStoreCache (run_cleanup s)).
    destruct (cleanup s) as [i|] eqn:Hi.
    + apply (run_cleanup_live s i Hc Hi).
    + rewrite run_cleanup_idle by assumption. now apply Hq.
  - destruct (is_pending (PSubscribe i) s); [|assumption].
    unfold on_subscribed.
    change (is_destroyed i (settle (PSubscribe i) s)) with (is_destroyed i s).
    destruct (is_destroyed i s) eqn:Hd; [exact Hq|].
    intros Hcl. simpl in Hcl.
    unfold control_invariant in Hc. rewrite Hcl in Hc.
    destruct Hc as (_ & Hall & _). rewrite Hall in Hd. discriminate.
  - destruct (is_pending (PSubscribe i) s); assumption.
  - destruct (is_pending (PUnsubscribe i) s); assumption.
  - destruct (is_pending (PUnsubscribe i) s); assumption.
  - intros Hcl.
    destruct (same_control_push msg data (listeners s) s)
      as (_ & _ & _ & Hcl' & _).
    rewrite Hcl' in Hcl.
    unfold control_invariant in Hc. rewrite Hcl in Hc.
    destruct Hc as (-> & _). simpl. now apply Hq.
Qed.

Lemma quiet_reachable es :
  cleanup (run init es) = None -> moduleStoreCache (run init es) = None.
Proof.
  induction es as [|e es IH] using rev_ind; [reflexivity|].
  unfold run in *. rewrite fold_left_app. simpl.
  apply quiet_step; [apply invariant_reachable | exact IH].
Qed.


End SubscriptionTeardown.

Section SubscriptionWitnesses.
Import Subscription.

Lemma stale_results_discarded_witness :
  let infoA := {| lastUpdated := 1; updateWarning := None |} in
  let infoB := {| lastUpdated := 2; updateWarning := None |} in
  moduleStoreCache
    (step (run (step (run init [Render (Some "A")]) (Render (Some "B")))
             [SubscribeResolved 1 (Some infoB)])
       (SubscribeResolved 0 (Some infoA)))
  = Some infoB
  /\ moduleStoreCache
       (step (run (step (run init [Render (Some "A")]) Unmount) [])
          (SubscribeResolved 0 (Some infoA)))
     = None
  /\ moduleStoreCache
       (step (run init [Render (Some "B")]) (Push "A" infoA)) = None.
Proof.
  intros infoA infoB.
  destruct (stale_results_discarded [Render (Some "A")]) as (Hlate & _).
  destruct (stale_results_discarded [Render (Some "B")]) as (_ & Hpush & _).
  assert (Hlive : cleanup (run init [Render (Some "A")]) = Some 0)
    by (vm_compute; reflexivity).
  split; [|split].
  - rewrite (Hlate 0 (Render (Some "B")) [SubscribeResolved 1 (Some infoB)]
               (Some infoA) Hlive eq_refl).
    vm_compute. reflexivity.
  - rewrite (Hlate 0 Unmount [] (Some infoA) Hlive eq_refl).
    vm_compute. reflexivity.
  - rewrite (Hpush "A" infoA); [vm_compute; reflexivity|].
    vm_compute. discriminate.
Defined.
End SubscriptionWitnesses.

(** * Further properties of the code *)

(** ** More facts about objects and sorting *)
Module EnumerationFacts.
Import JsObject JsObjectFacts FoldFacts.

Lemma filter_split_perm {A : Type} (f : A -> bool) (l : list A) :
  Permutation (filter f l ++ filter (fun x => negb (f x)) l) l.
Proof.
  induction l as [|a l IH]; simpl; [constructor|].
  destruct (f a); simpl.
  - now constructor.
  - apply Permutation_sym, Permutation_cons_app. now apply Permutation_sym.
Qed.

Lemma fold_insert_perm {A : Type} (ins : A -> list A -> list A) :
  (forall x l, Permutation (ins x l) (x :: l)) ->
  forall l acc, Permutation (fold_left (fun acc x => ins x acc) l acc) (acc ++ l).
Proof.
  intros Hins l. induction l as [|x l IH]; intros acc; simpl.
  - now rewrite app_nil_r.
  - rewrite IH. rewrite (Hins x acc). apply Permutation_middle.
Qed.

Lemma insert_by_index_perm {V : Type} (e : string * V) l :
  Permutation (insert_by_index e l) (e :: l).
Proof.
  induction l as [|e' l IH]; simpl; [reflexivity|].
  destruct (index_of e <? index_of e')%N; [reflexivity|].
  rewrite IH. apply perm_swap.
Qed.

Lemma insert_sorted_perm {A : Type} (cmp : A -> A -> Z) x l :
  Permutation (insert_sorted cmp x l) (x :: l).
Proof.
  induction l as [|y l IH]; simpl; [reflexivity|].
  destruct (cmp x y <? 0)%Z; [reflexivity|].
  rewrite IH. apply perm_swap.
Qed.

(** [sort] rearranges the array. *)
Lemma array_sort_perm {A : Type} (cmp : A -> A -> Z) l :
  Permutation (array_sort cmp l) l.
Proof.
  unfold array_sort.
  apply (fold_insert_perm (insert_sorted cmp) (insert_sorted_perm cmp) l []).
Qed.

(** [Object.entries] lists every own property once. *)
Lemma entries_perm {V : Type} (o : t V) : Permutation (entries o) o.
Proof.
  unfold entries.
  rewrite (fold_insert_perm insert_by_index insert_by_index_perm _ []).
  simpl. apply filter_split_perm.
Qed.

Lemma set_fresh {V : Type} (o : t V) k v :
  ~ In k (keys o) -> set o k v = (o ++ [(k, v)])%list.
Proof.
  induction o as [|[k' v'] o IH]; simpl; auto.
  intros Hn. destruct (String.eqb_spec k' k) as [->|Hne]; [tauto|].
  f_equal. apply IH. tauto.
Qed.

Lemma in_get {V : Type} (o : t V) k v :
  NoDup (keys o) -> In (k, v) o -> get o k = Some v.
Proof.
  induction o as [|[k' v'] o IH]; simpl; [tauto|].
  intros Hnd [[= -> ->]|Hin].
  - now rewrite String.eqb_refl.
  - inversion Hnd as [|? ? Hk Hnd']; subst.
    destruct (String.eqb_spec k' k) as [->|_]; [|auto].
    exfalso. apply Hk. unfold keys. now apply (in_map fst _ (k, v)).
Qed.

Lemma get_in {V : Type} (o : t V) k v : get o k = Some v -> In (k, v) o.
Proof.
  induction o as [|[k' v'] o IH]; simpl; [discriminate|].
  destruct (String.eqb_spec k' k) as [->|_]; [intros [= ->]; auto | auto].
Qed.

(** A loop of assignments whose keys are all new appends its entries. *)
Lemma fold_attach_fresh {A V : Type} (key : A -> string) (upd : V -> A -> V)
  (mk : A -> V) (l : list A) (o : t V) :
  NoDup (keys o ++ map key l) ->
  fold_left (attach key upd mk) l o
  = (o ++ map (fun a => (key a, mk a)) l)%list.
Proof.
  revert o. induction l as [|a l IH]; intros o Hnd; simpl.
  - now rewrite app_nil_r.
  - assert (Hfresh : ~ In (key a) (keys o)).
    { intros Hin. apply NoDup_remove_2 in Hnd. apply Hnd.
      apply in_or_app. now left. }
    unfold attach at 2. rewrite (proj2 (get_None_keys o (key a)) Hfresh).
    rewrite set_fresh by assumption.
    rewrite IH.
    + now rewrite <- app_assoc.
    + unfold keys in *. rewrite map_app, <- app_assoc. exact Hnd.
Qed.

Lemma fold_set_fresh {A V : Type} (key : A -> string) (val : A -> V)
  (l : list A) (o : t V) :
  NoDup (keys o ++ map key l) ->
  fold_left (fun acc a => set acc (key a) (val a)) l o
  = (o ++ map (fun a => (key a, val a)) l)%list.
Proof.
  revert o. induction l as [|a l IH]; intros o Hnd; simpl.
  - now rewrite app_nil_r.
  - assert (Hfresh : ~ In (key a) (keys o)).
    { intros Hin. apply NoDup_remove_2 in Hnd. apply Hnd.
      apply in_or_app. now left. }
    rewrite set_fresh by assumption.
    rewrite IH.
    + now rewrite <- app_assoc.
    + unfold keys in *. rewrite map_app, <- app_assoc. exact Hnd.
Qed.

(** A loop of assignments keeps the keys it found, in their places, and
    appends the new ones. *)
Lemma keys_fold_extend {A V : Type} (key : A -> string)
  (step : t V -> A -> t V) :
  (forall acc a, exists v, step acc a = set acc (key a) v) ->
  forall l o, exists ks,
    keys (fold_left step l o) = (keys o ++ ks)%list
    /\ forall k, In k ks -> ~ In k (keys o).
Proof.
  intros Hstep l. induction l as [|a l IH]; intros o; simpl.
  - exists []. split; [now rewrite app_nil_r | intros k []].
  - destruct (Hstep o a) as [v Hv]. rewrite Hv.
    destruct (IH (set o (key a) v)) as (ks & Hks & Hdis).
    destruct (in_dec string_dec (key a) (keys o)) as [Hin|Hn].
    + rewrite keys_set_present in Hks, Hdis by assumption. eauto.
    + rewrite keys_set_fresh in Hks, Hdis by assumption.
      exists (key a :: ks). split.
      * now rewrite Hks, <- app_assoc.
      * intros k [<-|Hk]; [assumption|].
        intros Hin. apply (Hdis k Hk). apply in_or_app. now left.
Qed.

(** Assigning in a loop is setting in a loop, ["__proto__"] left out. *)
Lemma fold_assign {A V : Type} (key : A -> string) (val : A -> V)
  (l : list A) (o : t V) :
  fold_left (fun acc a => assign acc (key a) (val a)) l o
  = fold_left (fun acc a => set acc (key a) (val a))
      (filter (fun a => negb (String.eqb (key a) "__proto__")) l) o.
Proof.
  revert o. induction l as [|a l IH]; intros o; simpl; auto.
  unfold assign at 2. destruct (String.eqb (key a) "__proto__"); simpl; auto.
Qed.
End EnumerationFacts.

(** ** More about the merger *)
Module MergerShape.
Import JsObject JsObjectFacts FoldFacts MergerFacts MergerLookup EnumerationFacts.

Lemma firstn_skipn_exact {A : Type} (l1 l2 : list A) :
  firstn (length l1) (l1 ++ l2) = l1 /\ skipn (length l1) (l1 ++ l2) = l2.
Proof.
  induction l1 as [|a l1 [IH1 IH2]]; simpl; [auto|].
  now rewrite IH1, IH2.
Qed.

Lemma app_split_by_keys {V : Type} (o : t V) (ks1 ks2 : list string) :
  keys o = (ks1 ++ ks2)%list ->
  exists l1 l2, o = (l1 ++ l2)%list /\ keys l1 = ks1 /\ keys l2 = ks2.
Proof.
  revert o. induction ks1 as [|k ks1 IH]; intros o Hk; simpl in *.
  - exists [], o. auto.
  - destruct o as [|e o]; [discriminate|]. simpl in Hk.
    injection Hk as He Hk. destruct (IH o Hk) as (l1 & l2 & -> & H1 & H2).
    exists (e :: l1), l2. simpl. repeat split; auto. now rewrite He, H1.
Qed.

(** The merged mapping is the mapping of the first loop, its records
    possibly updated, followed by the records the second loop created. *)
Lemma merged_split ms :
  exists l1 l2,
    merged_object ms = (l1 ++ l2)%list
    /\ keys l1 = keys (installed_phase ms)
    /\ forall k, In k (keys l2) -> ~ In k (keys (installed_phase ms)).
Proof.
  destruct (keys_fold_extend store_key attach_store attach_store_sets
              (store_pairs ms) (installed_phase ms)) as (ks & Hks & Hdis).
  rewrite <- merged_object_flat in Hks.
  destruct (app_split_by_keys _ _ _ Hks) as (l1 & l2 & Heq & H1 & H2).
  exists l1, l2. repeat split; auto. rewrite H2. exact Hdis.
Qed.

Lemma merged_record_installed ms k r :
  get (merged_object ms) k = Some r ->
  In k (keys (installed_phase ms)) -> installedInfo r <> None.
Proof.
  rewrite get_merged_object, get_installed_phase. intros Hget Hin.
  apply in_keys_installed_phase in Hin.
  destruct (last_with installed_key k (installed_pairs ms)) eqn:Hl.
  - injection Hget as <-.
    destruct (last_with store_key k (store_pairs ms)); discriminate.
  - apply last_with_None in Hl. contradiction.
Qed.

Lemma merged_record_store_only ms k r :
  get (merged_object ms) k = Some r ->
  ~ In k (keys (installed_phase ms)) ->
  installedInfo r = None /\ storeInfo r <> None.
Proof.
  rewrite get_merged_object. intros Hget Hn.
  apply get_None_keys in Hn. rewrite Hn in Hget.
  destruct (first_with store_key k (store_pairs ms)); [|discriminate].
  destruct (last_with store_key k (store_pairs ms)); [|discriminate].
  injection Hget as <-. split; [reflexivity | discriminate].
Qed.

Lemma length_installed_phase ms :
  length (installed_phase ms)
  = length (nodup string_dec (map installed_key (installed_pairs ms))).
Proof.
  rewrite installed_phase_flat.
  apply (length_fold installed_key). eauto.
Qed.

Lemma installed_prefix (ms : ModuleInfoStore) :
  let n := length (nodup string_dec (map installed_key (installed_pairs ms))) in
  n <= length (useAllConnectionProducts ms)
  /\ Forall (fun r => installedInfo r <> None)
       (firstn n (useAllConnectionProducts ms))
  /\ Forall (fun r => installedInfo r = None /\ storeInfo r <> None)
       (skipn n (useAllConnectionProducts ms)).
Proof.
  intros n. unfold n. rewrite <- length_installed_phase.
  destruct (merged_split ms) as (l1 & l2 & Heq & Hk1 & Hk2).
  pose proof (NoDup_keys_merged ms) as Hnd.
  assert (Hlen : length (installed_phase ms) = length (map snd l1)).
  { rewrite length_map, <- (length_map fst l1).
    change (map fst l1) with (keys l1). rewrite Hk1.
    unfold keys. now rewrite length_map. }
  rewrite values_merged, Heq, map_app, Hlen.
  destruct (firstn_skipn_exact (map snd l1) (map snd l2)) as [-> ->].
  split; [rewrite length_app; lia|]. split; apply Forall_forall; intros r Hr;
    apply in_map_iff in Hr as ([k r'] & <- & Hin); simpl.
  - apply (merged_record_installed ms k).
    + apply in_get; [assumption|]. rewrite Heq. apply in_or_app. now left.
    + rewrite <- Hk1. unfold keys. now apply (in_map fst _ (k, r')).
  - apply (merged_record_store_only ms k).
    + apply in_get; [assumption|]. rewrite Heq. apply in_or_app. now right.
    + apply Hk2. unfold keys. now apply (in_map fst _ (k, r')).
Qed.
End MergerShape.

Section MergerExtras.
Import JsObject JsObjectFacts FoldFacts MergerFacts MergerLookup.
Import EnumerationFacts MergerShape.

(** X1. When no composite key occurs twice, the merged list is the
    products of the installed modules in loop order, each with
    [storeInfo] null, followed by the products of the store entries in
    loop order, each with [installedInfo] null. *)
Theorem merged_listing_of_distinct_keys (ms : ModuleInfoStore) :
  NoDup (all_keys ms) ->
  useAllConnectionProducts ms
  = (map (fun mp => installed_product (fst mp) (snd mp)) (installed_pairs ms)
     ++ map (fun sp => store_product (fst sp) (snd sp)) (store_pairs ms))%list.
Proof.
  intros Hnd. unfold all_keys in Hnd.
  assert (Hinst : installed_phase ms
                  = map (fun mp => (installed_key mp,
                                    installed_product (fst mp) (snd mp)))
                      (installed_pairs ms)).
  { rewrite installed_phase_flat.
    rewrite (fold_set_fresh installed_key
               (fun mp => installed_product (fst mp) (snd mp))); [reflexivity|].
    simpl. now apply NoDup_app_remove_r in Hnd. }
  rewrite values_merged, merged_object_flat. unfold attach_store.
  rewrite fold_attach_fresh.
  - rewrite Hinst, map_app, !map_map. reflexivity.
  - rewrite Hinst. unfold keys. rewrite map_map. exact Hnd.
Qed.

Lemma merged_listing_of_distinct_keys_witness :
  useAllConnectionProducts Examples.disjoint
  = [ installed_product (Examples.installed_module "a" "A" ["p"]) "p";
      store_product (Examples.store_entry "b" "B" ["q"; "r"]) "q";
      store_product (Examples.store_entry "b" "B" ["q"; "r"]) "r" ].
Proof.
  apply (merged_listing_of_distinct_keys Examples.disjoint).
  cbv. repeat constructor; simpl; intuition discriminate.
Defined.

(** X2. The merged list puts every installed product before every
    store-only product: its first [n] records, [n] being the number of
    distinct composite keys of the installed modules, all carry
    [installedInfo], and all later records carry [storeInfo] and no
    [installedInfo]. *)
Theorem merged_installed_first (ms : ModuleInfoStore) :
  let n := length (nodup string_dec (map installed_key (installed_pairs ms))) in
  n <= length (useAllConnectionProducts ms)
  /\ Forall (fun r => installedInfo r <> None)
       (firstn n (useAllConnectionProducts ms))
  /\ Forall (fun r => installedInfo r = None /\ storeInfo r <> None)
       (skipn n (useAllConnectionProducts ms)).
Proof. exact (installed_prefix ms). Qed.
End MergerExtras.

Section MergerRecords.
Import JsObject JsObjectFacts FoldFacts MergerFacts MergerLookup.
Import EnumerationFacts MergerShape.

Lemma in_installed_pairs ms mp :
  In mp (installed_pairs ms)
  <-> In (fst mp) (map_values (modules ms))
      /\ In (snd mp) (mdi_products (baseInfo (fst mp))).
Proof.
  unfold installed_pairs. rewrite in_flat_map. split.
  - intros (m & Hm & Hin). apply in_map_iff in Hin as (p & <- & Hp). now split.
  - intros [Hm Hp]. exists (fst mp). split; [assumption|].
    apply in_map_iff. exists (snd mp). split; [now destruct mp | assumption].
Qed.

Lemma in_store_pairs ms sp :
  In sp (store_pairs ms)
  <-> In (fst sp) (map_values (storeList ms))
      /\ In (snd sp) (sle_products (fst sp)).
Proof.
  unfold store_pairs. rewrite in_flat_map. split.
  - intros (m & Hm & Hin). apply in_map_iff in Hin as (p & <- & Hp). now split.
  - intros [Hm Hp]. exists (fst sp). split; [assumption|].
    apply in_map_iff. exists (snd sp). split; [now destruct sp | assumption].
Qed.

(** X3. Every record of the merged list describes a product of the inputs.
    A record with [installedInfo] holds the id, name, manufacturer,
    shortname and keywords of that installed module and one of its
    products; a record without holds those of a store entry and one of its
    products.  The [storeInfo] of a record, when set, is a store entry that
    has a product with the record's composite key (its id can differ from
    the record's id). *)
Theorem merged_records_describe_inputs (ms : ModuleInfoStore) :
  Forall
    (fun r =>
       match installedInfo r with
       | Some m =>
           In m (map_values (modules ms))
           /\ In (product r) (mdi_products (baseInfo m))
           /\ same_but_storeInfo (installed_product m (product r)) r
       | None =>
           exists s,
             In s (map_values (storeList ms))
             /\ In (product r) (sle_products s)
             /\ same_but_storeInfo (store_product s (product r)) r
       end
       /\ forall s,
           storeInfo r = Some s ->
           In s (map_values (storeList ms))
           /\ exists p,
               In p (sle_products s)
               /\ composite_key (sle_id s) p = composite_key (id r) (product r))
    (useAllConnectionProducts ms).
Proof.
  rewrite values_merged. apply Forall_forall. intros r Hr.
  destruct (in_values_get _ _ (NoDup_keys_merged ms) Hr) as [k Hk].
  rewrite get_merged_object, get_installed_phase in Hk.
  destruct (last_with installed_key k (installed_pairs ms)) as [mp|] eqn:Hi.
  - apply last_with_key in Hi as [Hkey Hin].
    apply in_installed_pairs in Hin as [Hm Hp].
    destruct (last_with store_key k (store_pairs ms)) as [sp|] eqn:Hs;
      injection Hk as <-; simpl.
    + split; [repeat split; assumption|].
      intros s [= <-]. apply last_with_key in Hs as [Hkey' Hin'].
      apply in_store_pairs in Hin' as [Hs1 Hs2].
      split; [assumption|]. exists (snd sp). split; [assumption|].
      unfold store_key in Hkey'. unfold installed_key in Hkey. congruence.
    + split; [repeat split; assumption | discriminate].
  - destruct (first_with store_key k (store_pairs ms)) as [sp|] eqn:Hf;
      [|discriminate].
    destruct (last_with store_key k (store_pairs ms)) as [sp'|] eqn:Hl;
      [|discriminate].
    injection Hk as <-. simpl.
    apply first_with_key in Hf as [Hkey Hin].
    apply last_with_key in Hl as [Hkey' Hin'].
    apply in_store_pairs in Hin as [Hs1 Hs2].
    apply in_store_pairs in Hin' as [Hs1' Hs2'].
    split.
    + exists (fst sp). repeat split; assumption.
    + intros s [= <-]. split; [assumption|].
      exists (snd sp'). split; [assumption|].
      unfold store_key in *. congruence.
Qed.

(** X4. The merged mapping has a record for exactly the composite keys of
    the two inputs; the record of a key carries [installedInfo] exactly when
    an installed module has a product with that key, and [storeInfo]
    exactly when a store entry has one.  The merged list is empty exactly
    when no module of either input has a product. *)
Theorem merged_covers_keys (ms : ModuleInfoStore) :
  (forall k,
      In k (all_keys ms)
      <-> exists r, get (merged_object ms) k = Some r
                    /\ In r (useAllConnectionProducts ms))
  /\ (forall k r,
         get (merged_object ms) k = Some r ->
         (installedInfo r <> None
          <-> In k (map installed_key (installed_pairs ms)))
         /\ (storeInfo r <> None
             <-> In k (map store_key (store_pairs ms))))
  /\ (useAllConnectionProducts ms = []
      <-> installed_pairs ms = [] /\ store_pairs ms = []).
Proof.
  split; [|split].
  - intros k. rewrite <- in_keys_merged. split.
    + intros Hin. destruct (get (merged_object ms) k) as [r|] eqn:Hg.
      * exists r. split; [reflexivity|].
        rewrite values_merged. eapply get_in_values; eauto.
      * apply get_None_keys in Hg. contradiction.
    + intros (r & Hg & _). eapply get_Some_keys; eauto.
  - intros k r. rewrite get_merged_object, get_installed_phase.
    destruct (last_with installed_key k (installed_pairs ms)) as [mp|] eqn:Hi.
    + assert (Hin : In k (map installed_key (installed_pairs ms))).
      { apply last_with_key in Hi as [<- Hin]. now apply in_map. }
      destruct (last_with store_key k (store_pairs ms)) as [sp|] eqn:Hs;
        intros [= <-]; simpl.
      * assert (Hin' : In k (map store_key (store_pairs ms))).
        { apply last_with_key in Hs as [<- Hs]. now apply in_map. }
        intuition congruence.
      * apply last_with_None in Hs. intuition congruence.
    + apply last_with_None in Hi.
      destruct (first_with store_key k (store_pairs ms)) as [sp|] eqn:Hf;
        [|discriminate].
      destruct (last_with store_key k (store_pairs ms)) as [sp'|] eqn:Hl;
        [|discriminate].
      intros [= <-]. simpl.
      assert (Hin' : In k (map store_key (store_pairs ms))).
      { apply last_with_key in Hl as [<- Hl]. now apply in_map. }
      intuition congruence.
  - rewrite values_merged. split.
    + intros Hnil. apply map_eq_nil in Hnil.
      assert (Hkeys : all_keys ms = []).
      { destruct (all_keys ms) as [|k l] eqn:E; [reflexivity|].
        assert (Hin : In k (keys (merged_object ms)))
          by (apply in_keys_merged; rewrite E; simpl; auto).
        rewrite Hnil in Hin. destruct Hin. }
      unfold all_keys in Hkeys. apply app_eq_nil in Hkeys as [H1 H2].
      apply map_eq_nil in H1, H2. now split.
    + intros [H1 H2].
      destruct (merged_object ms) as [|[k v] o] eqn:E; [reflexivity|].
      assert (Hin : In k (all_keys ms)).
      { apply in_keys_merged. rewrite E. simpl. auto. }
      unfold all_keys in Hin. rewrite H1, H2 in Hin. destruct Hin.
Qed.

Lemma filter_all {A : Type} (f : A -> bool) (l : list A) :
  Forall (fun x => f x = true) l -> filter f l = l.
Proof.
  induction 1 as [|x l Hx _ IH]; simpl; [reflexivity|]. now rewrite Hx, IH.
Qed.

Lemma filter_none {A : Type} (f : A -> bool) (l : list A) :
  Forall (fun x => f x = false) l -> filter f l = [].
Proof.
  induction 1 as [|x l Hx _ IH]; simpl; [reflexivity|]. now rewrite Hx.
Qed.

(** X5. What [AddConnectionsPanel] hands to the filter: with "Available"
    on, every merged product; with "Available" off, exactly the installed
    products, which are the first [n] records of the merged list, [n] being
    the number of distinct composite keys of the installed modules. *)
Theorem typeProducts_by_availability (ms : ModuleInfoStore) :
  let n := length (nodup string_dec (map installed_key (installed_pairs ms))) in
  typeProducts (useAllConnectionProducts ms) true = useAllConnectionProducts ms
  /\ typeProducts (useAllConnectionProducts ms) false
     = firstn n (useAllConnectionProducts ms)
  /\ length (typeProducts (useAllConnectionProducts ms) false) = n.
Proof.
  intros n. destruct (installed_prefix ms) as (Hn & Hfirst & Hrest).
  fold n in Hn, Hfirst, Hrest.
  assert (Hoff : typeProducts (useAllConnectionProducts ms) false
                 = firstn n (useAllConnectionProducts ms)).
  { unfold typeProducts.
    rewrite <- (firstn_skipn n (useAllConnectionProducts ms)) at 1.
    rewrite filter_app, filter_all, filter_none.
    - apply app_nil_r.
    - eapply Forall_impl; [|exact Hrest]. intros r [-> _]. reflexivity.
    - eapply Forall_impl; [|exact Hfirst]. intros r Hr. simpl in *.
      destruct (installedInfo r); [reflexivity | congruence]. }
  split; [|split].
  - unfold typeProducts. apply filter_all. apply Forall_forall.
    intros r _. apply orb_true_r.
  - exact Hoff.
  - rewrite Hoff. apply firstn_length_le. exact Hn.
Qed.
End MergerRecords.

(** ** The order of strings *)
Module StringOrder.





End StringOrder.

(** ** Building a list of elements through an object *)
Module ListBuild.
Import JsObject JsObjectFacts FoldFacts EnumerationFacts StringOrder.

Section Sorted.
Context {A : Type} (lt : A -> A -> bool) (cmp : A -> A -> Z).
Hypothesis cmp_lt : forall x y, (cmp x y <? 0)%Z = lt x y.
Hypothesis lt_asym : forall x y, lt x y = true -> lt y x = false.
Hypothesis lt_trans :
  forall x y z, lt x y = true -> lt y z = true -> lt x z = true.


End Sorted.


Section Build.
Context {A E : Type} (key : A -> string) (mkE : A -> E) (key_of : E -> string).
Hypothesis key_of_mkE : forall a, key_of (mkE a) = key a.

Local Abbreviation built := (built_object key mkE).

Lemma built_get l k :
  get (built l) k
  = if String.eqb k "__proto__" then None
    else match last_with key k l with
         | Some a => Some (mkE a)
         | None => None
         end.
Proof.
  unfold built_object. induction l as [|x l IH] using rev_ind.
  - simpl. now destruct (String.eqb k "__proto__").
  - rewrite fold_left_app, last_with_snoc. simpl. unfold assign at 1.
    destruct (String.eqb_spec (key x) "__proto__") as [Hp|Hp].
    + rewrite IH. destruct (String.eqb_spec (key x) k) as [Hk|Hk]; [|reflexivity].
      subst k. rewrite Hp. reflexivity.
    + rewrite get_set. destruct (String.eqb_spec (key x) k) as [Hk|Hk].
      * subst k. destruct (String.eqb_spec (key x) "__proto__"); [contradiction|].
        reflexivity.
      * exact IH.
Qed.

Lemma built_NoDup l : NoDup (keys (built l)).
Proof.
  unfold built_object. rewrite fold_assign.
  apply (NoDup_keys_fold key); [eauto | constructor].
Qed.

Lemma built_keys_incl l k : In k (keys (built l)) -> In k (map key l).
Proof.
  unfold built_object. rewrite fold_assign.
  rewrite (in_keys_fold key) by eauto. simpl.
  intros [[]|Hin]. apply in_map_iff in Hin as (a & <- & Ha).
  apply filter_In in Ha as [Ha _]. now apply in_map.
Qed.

Lemma built_in l k e :
  In (k, e) (built l)
  <-> exists a, e = mkE a /\ k = key a /\ last_with key (key a) l = Some a
                /\ key a <> "__proto__".
Proof.
  split.
  - intros Hin. apply (in_get _ _ _ (built_NoDup l)) in Hin.
    rewrite built_get in Hin.
    destruct (String.eqb_spec k "__proto__") as [|Hp]; [discriminate|].
    destruct (last_with key k l) as [a|] eqn:Hl; [|discriminate].
    injection Hin as <-. pose proof (last_with_key key k l a Hl) as [Hk _].
    exists a. subst k. auto.
  - intros (a & -> & -> & Hl & Hp). apply get_in. rewrite built_get, Hl.
    destruct (String.eqb_spec (key a) "__proto__"); [contradiction|reflexivity].
Qed.

Lemma built_entry_key l e : In e (built l) -> key_of (snd e) = fst e.
Proof.
  destruct e as [k v]. intros Hin.
  apply built_in in Hin as (a & -> & -> & _). simpl. apply key_of_mkE.
Qed.

(** What holds of the list read back from the object, whether it was
    sorted or not. *)
Lemma built_list (l : list A) (es : list (string * E)) :
  Permutation es (built l) ->
  (forall c, In c (map snd es)
             <-> exists a, c = mkE a /\ last_with key (key a) l = Some a
                           /\ key a <> "__proto__")
  /\ NoDup (map key_of (map snd es))
  /\ length (map snd es) <= length l.
Proof.
  intros Hperm.
  assert (Hkeys : map key_of (map snd es) = map fst es).
  { rewrite map_map. apply map_ext_in. intros e He.
    apply built_entry_key with (l := l). eapply Permutation_in; eauto. }
  assert (Hnd : NoDup (map fst es)).
  { eapply Permutation_NoDup; [|apply (built_NoDup l)].
    apply Permutation_sym. unfold keys. now apply Permutation_map. }
  split; [|split].
  - intros c. rewrite in_map_iff. split.
    + intros ([k e] & <- & Hin). simpl.
      apply (Permutation_in _ Hperm) in Hin.
      apply built_in in Hin as (a & -> & _ & Hl & Hp). eauto.
    + intros (a & -> & Hl & Hp). exists (key a, mkE a). split; [reflexivity|].
      apply (Permutation_in _ (Permutation_sym Hperm)).
      apply built_in. eauto.
  - now rewrite Hkeys.
  - rewrite length_map, <- (length_map fst es), <- (length_map key l).
    apply NoDup_incl_length; [assumption|].
    intros k Hk. apply (built_keys_incl l).
    eapply Permutation_in; [|exact Hk].
    unfold keys. now apply Permutation_map.
Qed.

End Build.
End ListBuild.

(** ** More about the candidates list of [AddConnectionsPanel] *)
Module CandidatesFacts.
Import JsObject JsObjectFacts FoldFacts EnumerationFacts StringOrder ListBuild.

Lemma compile_candidates_normal fs lc products filter results :
  filterProducts fs products filter = Normal results ->
  compile_candidates fs lc products filter
  = Normal (map snd (if falsy filter
                     then array_sort (compare_names lc)
                            (entries (built_object name entry_of results))
                     else entries (built_object name entry_of results))).
Proof.
  intros H. unfold compile_candidates. rewrite H. simpl.
  now destruct (falsy filter).
Qed.

Lemma read_back_perm lc filter results :
  Permutation
    (if falsy filter
     then array_sort (compare_names lc)
            (entries (built_object name entry_of results))
     else entries (built_object name entry_of results))
    (built_object name entry_of results).
Proof.
  destruct (falsy filter).
  - rewrite array_sort_perm. apply entries_perm.
  - apply entries_perm.
Qed.

Lemma element_key_entry_of m : element_key (entry_of m) = name m.
Proof. reflexivity. Qed.



(** Under its contract the ranking function makes the filter return a
    part of its input. *)
Lemma filterProducts_sound fs matches products filter :
  ranking_contract matches fs ->
  exists results,
    filterProducts fs products filter = Normal results
    /\ incl results products.
Proof.
  intros Hc. unfold filterProducts. destruct (falsy filter).
  - exists products. split; [reflexivity | apply incl_refl].
  - destruct (Hc filter products filter_options) as (rs & -> & Hrs).
    exists (map obj rs). split; [reflexivity|].
    intros m Hm. apply in_map_iff in Hm as (r & <- & Hr). now apply Hrs.
Qed.
End CandidatesFacts.

Section CandidatesExtras.
Import JsObject JsObjectFacts FoldFacts EnumerationFacts StringOrder ListBuild.
Import CandidatesFacts.
Variable fuzzySearch : FuzzySearch.
Variable toLocaleLowerCase : string -> string.



End CandidatesExtras.




Section PanelExtras.
Import JsObject JsObjectFacts FoldFacts MergerLookup EnumerationFacts.
Import StringOrder ListBuild CandidatesFacts.
Variable fuzzySearch : FuzzySearch.
Variable toLocaleLowerCase : string -> string.
Variable matches : string -> string -> bool.
Hypothesis fuzzySearch_contract : ranking_contract matches fuzzySearch.

Lemma panel_candidates_normal ms available filter :
  exists results,
    incl results (typeProducts (useAllConnectionProducts ms) available)
    /\ panel_candidates fuzzySearch toLocaleLowerCase ms available filter
       = {| candidates :=
              map snd (if falsy filter
                       then array_sort (compare_names toLocaleLowerCase)
                              (entries (built_object name entry_of results))
                       else entries (built_object name entry_of results));
            console_errors := [] |}.
Proof.
  destruct (filterProducts_sound fuzzySearch matches
              (typeProducts (useAllConnectionProducts ms) available) filter
              fuzzySearch_contract) as (results & Hres & Hincl).
  exists results. split; [assumption|].
  unfold panel_candidates, build_candidates.
  now rewrite (compile_candidates_normal _ _ _ _ _ Hres).
Qed.


Lemma merged_empty_iff ms :
  useAllConnectionProducts ms = []
  <-> installed_pairs ms = [] /\ store_pairs ms = [].
Proof.
  rewrite values_merged. split.
  - intros Hnil. apply map_eq_nil in Hnil.
    assert (Hkeys : all_keys ms = []).
    { destruct (all_keys ms) as [|k l] eqn:E; [reflexivity|].
      assert (Hin : In k (keys (merged_object ms)))
        by (apply in_keys_merged; rewrite E; simpl; auto).
      rewrite Hnil in Hin. destruct Hin. }
    unfold all_keys in Hkeys. apply app_eq_nil in Hkeys as [H1 H2].
    apply map_eq_nil in H1, H2. now split.
  - intros [H1 H2].
    destruct (merged_object ms) as [|[k v] o] eqn:E; [reflexivity|].
    assert (Hin : In k (all_keys ms)).
    { apply in_keys_merged. rewrite E. simpl. auto. }
    unfold all_keys in Hin. rewrite H1, H2 in Hin. destruct Hin.
Qed.

(** X10. The empty-state messages of [AddConnectionsPanel].  With a ranking
    function that keeps its contract, "No modules are installed." is shown
    exactly when no installed module and no store entry has a product,
    whatever the query and the "Available" switch; and the two messages are
    never shown together. *)
Theorem panel_empty_states (ms : ModuleInfoStore) (available : bool)
  (filter : string) :
  (shows_no_modules
     (candidates
        (panel_candidates fuzzySearch toLocaleLowerCase ms available filter))
     (useAllConnectionProducts ms) = true
   <-> installed_pairs ms = [] /\ store_pairs ms = [])
  /\ (shows_no_match
        (candidates
           (panel_candidates fuzzySearch toLocaleLowerCase ms available filter))
        (useAllConnectionProducts ms)
      && shows_no_modules
           (candidates
              (panel_candidates fuzzySearch toLocaleLowerCase ms available filter))
           (useAllConnectionProducts ms) = false).
Proof.
  split.
  - rewrite <- merged_empty_iff.
    destruct (panel_candidates_normal ms available filter)
      as (results & Hincl & ->). simpl candidates.
    destruct (built_list name entry_of element_key element_key_entry_of results _
                (read_back_perm toLocaleLowerCase filter results))
      as (_ & _ & Hlen).
    unfold shows_no_modules. rewrite andb_true_iff, !Nat.eqb_eq. split.
    + intros [_ Hall]. now apply length_zero_iff_nil.
    + intros Hall. rewrite Hall in *. simpl in Hincl.
      assert (Hres : results = []).
      { destruct results as [|m l]; [reflexivity|].
        destruct (Hincl m (or_introl eq_refl)). }
      subst results. split; [apply Nat.le_0_r; exact Hlen | reflexivity].
  - unfold shows_no_match, shows_no_modules.
    destruct (length (useAllConnectionProducts ms)) as [|n];
      simpl; now rewrite ?andb_false_r.
Qed.
End PanelExtras.


Lemma panel_empty_states_witness :
  shows_no_modules
    (candidates
       (panel_candidates Examples.substring_rank (fun s => s)
          {| modules := []; storeList := [] |} true "zzz"))
    (useAllConnectionProducts {| modules := []; storeList := [] |}) = true.
Proof.
  apply (proj1 (panel_empty_states Examples.substring_rank (fun s => s)
                  Examples.holds_substring substring_rank_contract
                  {| modules := []; storeList := [] |} true "zzz")).
  split; reflexivity.
Defined.

(** ** [ModulesList] *)
Module ModulesListFacts.
Import JsObject JsObjectFacts FoldFacts EnumerationFacts StringOrder ListBuild.

Lemma existsb_eqb_In (i : string) (l : list string) :
  existsb (String.eqb i) l = true <-> In i l.
Proof.
  rewrite existsb_exists. split.
  - intros (x & Hx & E). apply String.eqb_eq in E. now subst.
  - intros Hin. exists i. split; [assumption | apply String.eqb_refl].
Qed.

(** The ids of a list are those of a part of it and those outside it. *)
Lemma set_size_split (a b : list string) :
  incl b a ->
  set_size a
  = set_size b
    + set_size (filter (fun i => negb (existsb (String.eqb i) b)) a).
Proof.
  intros Hincl. unfold set_size. rewrite <- length_app.
  apply Permutation_length, NoDup_Permutation.
  - apply NoDup_nodup.
  - apply NoDup_app; try apply NoDup_nodup.
    intros i Hb Hrest. rewrite nodup_In in Hb, Hrest.
    apply filter_In in Hrest as [_ Hn]. apply negb_true_iff in Hn.
    apply existsb_eqb_In in Hb. congruence.
  - intros i. rewrite in_app_iff, !nodup_In, filter_In, negb_true_iff. split.
    + intros Ha. destruct (existsb (String.eqb i) b) eqn:E.
      * left. now apply existsb_eqb_In.
      * right. now split.
    + intros [Hb|[Ha _]]; [now apply Hincl | assumption].
Qed.





End ModulesListFacts.

Section ModulesListExtras.
Import JsObject JsObjectFacts FoldFacts EnumerationFacts StringOrder ListBuild.
Import ModulesListFacts.
Variable fuzzySearch : FuzzySearch.
Variable toLocaleLowerCase : string -> string.

(** X11. The hidden count of [ModulesList] is the number of distinct module
    ids of the product list none of whose products passes the visibility
    filter.  It is never negative, and it is zero exactly when every module
    id has a visible product. *)
Theorem hiddenCount_counts_hidden_modules (allProducts : list FuzzyProduct)
  (installed available : bool) :
  let visible := visible_products allProducts installed available in
  hiddenCount allProducts visible
  = Z.of_nat
      (set_size
         (filter (fun i => negb (existsb (String.eqb i) (map id visible)))
            (map id allProducts)))
  /\ (0 <= hiddenCount allProducts visible)%Z
  /\ (hiddenCount allProducts visible = 0%Z
      <-> forall p, In p allProducts ->
                    exists q, In q visible /\ id q = id p).
Proof.
  intros visible.
  assert (Hincl : incl (map id visible) (map id allProducts)).
  { intros i Hi. apply in_map_iff in Hi as (q & <- & Hq).
    apply filter_In in Hq as [Hq _]. now apply in_map. }
  pose proof (set_size_split _ _ Hincl) as Hsplit.
  set (hidden := filter (fun i => negb (existsb (String.eqb i) (map id visible)))
                   (map id allProducts)) in *.
  assert (Hcount : hiddenCount allProducts visible = Z.of_nat (set_size hidden)).
  { unfold hiddenCount. lia. }
  split; [exact Hcount|]. split; [lia|].
  rewrite Hcount. split.
  - intros Hz p Hp.
    assert (Hnil : hidden = []).
    { destruct hidden as [|i l] eqn:E; [reflexivity|].
      exfalso. assert (Hin : In i (nodup string_dec (i :: l)))
        by (apply nodup_In; simpl; auto).
      unfold set_size in Hz. destruct (nodup string_dec (i :: l));
        [destruct Hin | simpl in Hz; lia]. }
    destruct (existsb (String.eqb (id p)) (map id visible)) eqn:E.
    + apply existsb_eqb_In in E. apply in_map_iff in E as (q & Hq & Hin). eauto.
    + exfalso. assert (Hin : In (id p) hidden).
      { unfold hidden. apply filter_In. split; [now apply in_map|].
        now rewrite E. }
      rewrite Hnil in Hin. destruct Hin.
  - intros Hall.
    assert (Hnil : hidden = []).
    { destruct hidden as [|i l] eqn:E; [reflexivity|].
      exfalso. assert (Hin : In i hidden) by (rewrite E; simpl; auto).
      unfold hidden in Hin. apply filter_In in Hin as [Hi Hn].
      apply in_map_iff in Hi as (p & <- & Hp).
      destruct (Hall p Hp) as (q & Hq & Heq).
      apply negb_true_iff in Hn.
      assert (Hex : existsb (String.eqb (id p)) (map id visible) = true).
      { apply existsb_eqb_In. rewrite <- Heq. now apply in_map. }
      congruence. }
    now rewrite Hnil.
Qed.

End ModulesListExtras.


(** ** More about the store-info subscription *)
Module SubscriptionTrace.
Import Subscription SubscriptionFacts SubscriptionSteps SubscriptionInvariant.

Lemma bracket_app open l l' :
  bracket open (l ++ l')
  = match bracket open l with
    | Some open' => bracket open' l'
    | None => None
    end.
Proof.
  revert open. induction l as [|r l IH]; intros open; simpl; [reflexivity|].
  destruct r as [m|m]; destruct open as [m'|]; auto.
  destruct (String.eqb m m'); auto.
Qed.

Lemma pending_eqb_refl p : pending_eqb p p = true.
Proof. destruct p; simpl; apply Nat.eqb_refl. Qed.

Lemma settle_not_pending p s : is_pending p (settle p s) = false.
Proof.
  unfold is_pending, settle. simpl.
  induction (pending s) as [|q l IH]; simpl; [reflexivity|].
  destruct (pending_eqb p q) eqn:E; simpl; [exact IH|]. now rewrite E.
Qed.

Lemma same_control_active s s' :
  same_control s s' -> active_moduleId s' = active_moduleId s.
Proof.
  intros Hsc. unfold active_moduleId.
  assert (Hm : forall i, moduleId_of i s' = moduleId_of i s)
    by (intros i; now apply same_control_moduleId_of).
  destruct Hsc as (_ & _ & _ & -> & _).
  destruct (cleanup s); [now rewrite Hm | reflexivity].
Qed.

(** What the effect adds to the request trace. *)
Lemma effect_bracket moduleId s :
  control_invariant s -> cleanup s = None ->
  exists delta,
    requests (effect moduleId s) = (requests s ++ delta)%list
    /\ bracket None delta = Some (active_moduleId (effect moduleId s))
    /\ Forall (fun r => request_moduleId r <> "") delta.
Proof.
  intros Hc Hcl.
  destruct (control_effect moduleId s Hc Hcl) as [_ Hshape].
  destruct (effect_actions_spec moduleId s) as [Hact _].
  exists (flat_map (fun a => match a with Emit r => [r] | _ => [] end)
            (effect_actions moduleId (length (runs s)))).
  split; [unfold requests at 1; rewrite Hact; apply requests_app|].
  unfold active_moduleId.
  destruct (cleanup (effect moduleId s)) as [i|].
  - destruct Hshape as [Ha ->].
    destruct moduleId as [m|]; [|discriminate]. simpl in Ha.
    unfold effect_actions. rewrite Ha. simpl. split; [reflexivity|].
    repeat constructor. simpl. intros ->. discriminate.
  - unfold effect_actions. destruct moduleId as [m|]; simpl in Hshape.
    + rewrite Hshape. simpl. split; [reflexivity | constructor].
    + simpl. split; [reflexivity | constructor].
Qed.

(** What the cleanup adds to the request trace. *)
Lemma run_cleanup_bracket s :
  control_invariant s ->
  exists delta,
    requests (run_cleanup s) = (requests s ++ delta)%list
    /\ bracket (active_moduleId s) delta = Some None
    /\ Forall (fun r => request_moduleId r <> "") delta.
Proof.
  intros Hc. unfold active_moduleId. destruct (cleanup s) as [i|] eqn:Hi.
  - destruct (run_cleanup_live s i Hc Hi) as (_ & _ & _ & _ & _ & _ & Hreq & _).
    exists [Unsubscribe (moduleId_of i s)]. split; [exact Hreq|].
    simpl. rewrite String.eqb_refl. split; [reflexivity|].
    repeat constructor. simpl.
    unfold control_invariant in Hc. rewrite Hi in Hc.
    destruct Hc as (_ & _ & Hf & _). intros E. rewrite E in Hf. discriminate.
  - exists []. rewrite run_cleanup_idle by assumption.
    rewrite app_nil_r. repeat split. constructor.
Qed.

Lemma step_bracket s e :
  invariant s ->
  exists delta,
    requests (step s e) = (requests s ++ delta)%list
    /\ bracket (active_moduleId s) delta = Some (active_moduleId (step s e))
    /\ Forall (fun r => request_moduleId r <> "") delta.
Proof.
  intros [Hc Hl].
  assert (Hsame : forall s', same_control s s' ->
             exists delta,
               requests s' = (requests s ++ delta)%list
               /\ bracket (active_moduleId s) delta = Some (active_moduleId s')
               /\ Forall (fun r => request_moduleId r <> "") delta).
  { intros s' Hsc. exists []. rewrite app_nil_r.
    rewrite (same_control_active s s' Hsc).
    destruct Hsc as (_ & _ & _ & _ & _ & ->). repeat split. constructor. }
  assert (Hcleanup_effect : forall moduleId,
             exists delta,
               requests (effect moduleId (run_cleanup (set_deps moduleId s)))
               = (requests s ++ delta)%list
               /\ bracket (active_moduleId s) delta
                  = Some (active_moduleId
                            (effect moduleId (run_cleanup (set_deps moduleId s))))
               /\ Forall (fun r => request_moduleId r <> "") delta).
  { intros moduleId.
    destruct (run_cleanup_bracket (set_deps moduleId s) Hc)
      as (d1 & Hr1 & Hb1 & Hf1).
    destruct (control_run_cleanup (set_deps moduleId s) Hc) as [Hc' Hcl'].
    destruct (effect_bracket moduleId _ Hc' Hcl') as (d2 & Hr2 & Hb2 & Hf2).
    exists (d1 ++ d2)%list. split; [|split].
    - rewrite Hr2, Hr1. now rewrite <- app_assoc.
    - rewrite bracket_app.
      change (active_moduleId (set_deps moduleId s)) with (active_moduleId s)
        in Hb1.
      now rewrite Hb1.
    - apply Forall_app. now split. }
  destruct e as [moduleId| |i data|i err|i|i err|msg data]; simpl.
  - destruct (unmounted s); [apply Hsame, same_control_refl|].
    destruct (deps s) as [d|] eqn:Hd.
    + destruct (same_deps d moduleId); [apply Hsame, same_control_refl|].
      apply Hcleanup_effect.
    + assert (Hcl : cleanup s = None) by now apply lifecycle_no_deps.
      destruct (effect_bracket moduleId (set_deps moduleId s) Hc Hcl)
        as (d2 & Hr2 & Hb2 & Hf2).
      exists d2. repeat split; try assumption.
      unfold active_moduleId at 1. now rewrite Hcl.
  - destruct (unmounted s); [apply Hsame, same_control_refl|].
    destruct (deps s); [|apply Hsame, same_control_refl].
    destruct (run_cleanup_bracket s Hc) as (d1 & Hr1 & Hb1 & Hf1).
    destruct (control_run_cleanup s Hc) as [_ Hcl'].
    exists d1. repeat split; try assumption.
    rewrite Hb1. unfold active_moduleId.
    change (cleanup (set_unmounted (run_cleanup s))) with (cleanup (run_cleanup s)).
    now rewrite Hcl'.
  - destruct (is_pending (PSubscribe i) s); [|apply Hsame, same_control_refl].
    apply Hsame. eapply same_control_trans;
      [apply same_control_settle | apply same_control_on_subscribed].
  - destruct (is_pending (PSubscribe i) s); [|apply Hsame, same_control_refl].
    apply Hsame. eapply same_control_trans;
      [apply same_control_settle | apply same_control_console_error].
  - destruct (is_pending (PUnsubscribe i) s); [|apply Hsame, same_control_refl].
    apply Hsame, same_control_settle.
  - destruct (is_pending (PUnsubscribe i) s); [|apply Hsame, same_control_refl].
    apply Hsame. eapply same_control_trans;
      [apply same_control_settle | apply same_control_console_error].
  - apply Hsame, same_control_push.
Qed.

Lemma dead_step s e :
  dead s -> dead (step s e) /\ requests (step s e) = requests s.
Proof.
  intros (Hun & Hcl & Hls & Hall & Hcache).
  assert (Hsame : forall s',
             same_control s s' -> moduleStoreCache s' = moduleStoreCache s ->
             dead s' /\ requests s' = requests s).
  { intros s' Hsc Hc'.
    assert (Hd : forall j, is_destroyed j s' = is_destroyed j s)
      by (intros j; now apply same_control_is_destroyed).
    destruct Hsc as (_ & Hu & _ & Hc & Hl & Hr).
    split; [|exact Hr]. unfold dead. rewrite Hu, Hc, Hl, Hc'.
    repeat split; try assumption. intros j. now rewrite Hd. }
  destruct e as [moduleId| |i data|i err|i|i err|msg data]; simpl.
  - rewrite Hun. apply Hsame; [apply same_control_refl | reflexivity].
  - rewrite Hun. apply Hsame; [apply same_control_refl | reflexivity].
  - destruct (is_pending (PSubscribe i) s);
      [|apply Hsame; [apply same_control_refl | reflexivity]].
    unfold on_subscribed.
    change (is_destroyed i (settle (PSubscribe i) s)) with (is_destroyed i s).
    rewrite Hall. apply Hsame; [apply same_control_settle | reflexivity].
  - destruct (is_pending (PSubscribe i) s);
      [|apply Hsame; [apply same_control_refl | reflexivity]].
    apply Hsame; [|reflexivity].
    eapply same_control_trans;
      [apply same_control_settle | apply same_control_console_error].
  - destruct (is_pending (PUnsubscribe i) s);
      apply Hsame; try reflexivity;
      [apply same_control_settle | apply same_control_refl].
  - destruct (is_pending (PUnsubscribe i) s);
      [|apply Hsame; [apply same_control_refl | reflexivity]].
    apply Hsame; [|reflexivity].
    eapply same_control_trans;
      [apply same_control_settle | apply same_control_console_error].
  - rewrite Hls. simpl. apply Hsame; [apply same_control_refl | reflexivity].
Qed.

Lemma dead_run es s :
  dead s -> dead (run s es) /\ requests (run s es) = requests s.
Proof.
  revert s. induction es as [|e es IH]; intros s Hd; simpl; [now split|].
  destruct (dead_step s e Hd) as [Hd' Hr'].
  destruct (IH _ Hd') as [Hd'' Hr'']. split; [assumption | congruence].
Qed.

Lemma run_snoc es e : run init (es ++ [e]) = step (run init es) e.
Proof. unfold run. now rewrite fold_left_app. Qed.

Lemma deps_after_render s moduleId :
  unmounted s = false -> deps (step s (Render moduleId)) = Some moduleId.
Proof.
  intros Hun. simpl. rewrite Hun.
  destruct (deps s) as [d|] eqn:Hd.
  - destruct (same_deps d moduleId) eqn:E.
    + destruct d as [x|], moduleId as [y|]; simpl in E; try discriminate;
        [apply String.eqb_eq in E; now subst | assumption].
    + destruct (effect_frame moduleId (run_cleanup (set_deps moduleId s)))
        as [-> _].
      now destruct (run_cleanup_frame (set_deps moduleId s)) as [-> _].
  - now destruct (effect_frame moduleId (set_deps moduleId s)) as [-> _].
Qed.
End SubscriptionTrace.

Section SubscriptionExtras.
Import Subscription SubscriptionFacts SubscriptionSteps SubscriptionInvariant.
Import SubscriptionTrace.

(** X13. Data for the live subscription is shown.  In every state the hook
    reaches, the response to the subscribe request of the live run of the
    effect becomes the value the hook returns, and a promise settles once:
    the same response arriving again changes nothing.  A push notification
    for the active module identifier becomes the value the hook returns,
    whether or not the subscribe response has arrived. *)
Theorem live_data_is_shown (es : list Event) :
  (forall i data,
      cleanup (run init es) = Some i ->
      is_pending (PSubscribe i) (run init es) = true ->
      useModuleStoreInfo (step (run init es) (SubscribeResolved i data)) = data
      /\ forall data',
          step (step (run init es) (SubscribeResolved i data))
            (SubscribeResolved i data')
          = step (run init es) (SubscribeResolved i data))
  /\ (forall m data,
         active_moduleId (run init es) = Some m ->
         useModuleStoreInfo (step (run init es) (Push m data)) = Some data).
Proof.
  pose proof (invariant_reachable es) as [Hc _].
  set (s := run init es) in *.
  split.
  - intros i data Hi Hp. unfold control_invariant in Hc. rewrite Hi in Hc.
    destruct Hc as (Hlive & _).
    assert (Hstep : step s (SubscribeResolved i data)
                    = setModuleStoreCache data (settle (PSubscribe i) s)).
    { simpl. rewrite Hp. unfold on_subscribed.
      change (is_destroyed i (settle (PSubscribe i) s)) with (is_destroyed i s).
      now rewrite Hlive. }
    split; [now rewrite Hstep|].
    intros data'. rewrite Hstep. simpl.
    change (is_pending (PSubscribe i)
              (setModuleStoreCache data (settle (PSubscribe i) s)))
      with (is_pending (PSubscribe i) (settle (PSubscribe i) s)).
    now rewrite settle_not_pending.
  - intros m data Hm. unfold active_moduleId in Hm.
    unfold control_invariant in Hc.
    destruct (cleanup s) as [i|]; [|discriminate].
    injection Hm as Hm. destruct Hc as (Hlive & Hls & _).
    simpl. rewrite Hls. simpl. unfold updateCache.
    now rewrite Hlive, Hm, String.eqb_refl.
Qed.

Lemma live_data_is_shown_witness :
  let info := {| lastUpdated := 7; updateWarning := Some "old" |} in
  useModuleStoreInfo
    (step (run init [Render (Some "A")]) (SubscribeResolved 0 (Some info)))
  = Some info
  /\ useModuleStoreInfo (step (run init [Render (Some "A")]) (Push "A" info))
     = Some info.
Proof.
  intros info.
  destruct (live_data_is_shown [Render (Some "A")]) as [Hresp Hpush].
  split.
  - apply (Hresp 0 (Some info)); vm_compute; reflexivity.
  - apply (Hpush "A" info). vm_compute. reflexivity.
Defined.

(** X14. The requests the hook sends are well bracketed.  In every state
    the hook reaches, its request trace read from the start alternates
    subscribe and unsubscribe requests, every unsubscribe names the module
    of the subscribe before it, the subscription left open at the end is
    the one for the active module identifier, and no request names the
    empty identifier. *)
Theorem requests_well_bracketed (es : list Event) :
  bracket None (requests (run init es)) = Some (active_moduleId (run init es))
  /\ Forall (fun r => request_moduleId r <> "") (requests (run init es)).
Proof.
  induction es as [|e es [IHb IHf]] using rev_ind.
  - split; [reflexivity | constructor].
  - rewrite run_snoc.
    destruct (step_bracket (run init es) e (invariant_reachable es))
      as (delta & Hreq & Hb & Hf).
    rewrite Hreq. split.
    + now rewrite bracket_app, IHb.
    + apply Forall_app. now split.
Qed.

(** X15. The unmount is final.  Once a hook that has rendered is
    unmounted, whatever happens afterwards (late responses, failures, push
    notifications, further renders) it returns null, has no listener on the
    socket and sends no further request. *)
Theorem unmount_is_final (es es' : list Event) :
  deps (run init es) <> None ->
  useModuleStoreInfo (run (step (run init es) Unmount) es') = None
  /\ listeners (run (step (run init es) Unmount) es') = []
  /\ active_moduleId (run (step (run init es) Unmount) es') = None
  /\ requests (run (step (run init es) Unmount) es')
     = requests (step (run init es) Unmount).
Proof.
  intros Hd.
  assert (Hdead : dead (step (run init es) Unmount)).
  { rewrite <- run_snoc.
    pose proof (invariant_reachable (es ++ [Unmount])) as [Hc Hl].
    pose proof (quiet_reachable (es ++ [Unmount])) as Hq.
    assert (Hun : unmounted (run init (es ++ [Unmount])) = true).
    { rewrite run_snoc. simpl.
      destruct (unmounted (run init es)) eqn:E; [exact E|].
      destruct (deps (run init es)); [reflexivity | contradiction]. }
    set (s1 := run init (es ++ [Unmount])) in *.
    assert (Hcl : cleanup s1 = None).
    { unfold lifecycle_invariant in Hl.
      destruct (cleanup s1); [|reflexivity].
      destruct Hl as [Hl _]. congruence. }
    unfold control_invariant in Hc. rewrite Hcl in Hc.
    destruct Hc as (Hls & Hall & _).
    repeat split; auto. }
  destruct (dead_run es' _ Hdead) as [(_ & Hcl & Hls & _ & Hcache) Hreq].
  repeat split; try assumption.
  unfold active_moduleId. now rewrite Hcl.
Qed.

Lemma unmount_is_final_witness :
  let info := {| lastUpdated := 7; updateWarning := None |} in
  useModuleStoreInfo
    (run (step (run init [Render (Some "A")]) Unmount)
       [SubscribeResolved 0 (Some info); Push "A" info; Render (Some "B")])
  = None
  /\ requests
       (run (step (run init [Render (Some "A")]) Unmount)
          [SubscribeResolved 0 (Some info); Push "A" info; Render (Some "B")])
     = [Subscribe "A"; Unsubscribe "A"].
Proof.
  intros info.
  assert (Hd : deps (run init [Render (Some "A")]) <> None)
    by (vm_compute; discriminate).
  destruct (unmount_is_final [Render (Some "A")]
              [SubscribeResolved 0 (Some info); Push "A" info; Render (Some "B")]
              Hd) as (Hc & _ & _ & Hr).
  split; [exact Hc|]. rewrite Hr. vm_compute. reflexivity.
Defined.

(** X16. The hook follows the module identifier.  After a render of a
    mounted hook with a present identifier the hook is subscribed for
    exactly that identifier; and when the render changes the identifier
    the hook returns null once the effect has run, until data for the new
    identifier arrives. *)
Theorem render_follows_identifier (es : list Event) (m : string) :
  unmounted (run init es) = false ->
  m <> "" ->
  active_moduleId (step (run init es) (Render (Some m))) = Some m
  /\ (deps (run init es) <> Some (Some m) ->
      useModuleStoreInfo (step (run init es) (Render (Some m))) = None).
Proof.
  intros Hun Hm. split.
  - pose proof (deps_after_render (run init es) (Some m) Hun) as Hd.
    rewrite <- run_snoc in *.
    pose proof (invariant_reachable (es ++ [Render (Some m)])) as [_ Hl].
    set (s1 := run init (es ++ [Render (Some m)])) in *.
    assert (Hun1 : unmounted s1 = false).
    { unfold s1. rewrite run_snoc. unfold step. rewrite Hun.
      destruct (deps (run init es)) as [d|].
      - destruct (same_deps d (Some m)); [assumption|].
        destruct (effect_frame (Some m) (run_cleanup (set_deps (Some m) (run init es))))
          as [_ ->].
        now destruct (run_cleanup_frame (set_deps (Some m) (run init es)))
          as [_ ->].
      - now destruct (effect_frame (Some m) (set_deps (Some m) (run init es)))
          as [_ ->]. }
    unfold lifecycle_invariant in Hl. unfold active_moduleId.
    destruct (cleanup s1) as [i|].
    + destruct Hl as [_ Hl]. congruence.
    + specialize (Hl _ Hd Hun1). simpl in Hl.
      apply falsy_empty in Hl. contradiction.
  - intros Hd. unfold step. rewrite Hun.
    destruct (deps (run init es)) as [d|].
    + destruct (same_deps d (Some m)) eqn:E.
      * apply same_deps_spec in E. congruence.
      * apply effect_actions_spec.
    + apply effect_actions_spec.
Qed.

Lemma render_follows_identifier_witness :
  active_moduleId
    (step (run init [Render (Some "A");
                     SubscribeResolved 0 (Some {| lastUpdated := 1;
                                                  updateWarning := None |})])
       (Render (Some "B"))) = Some "B"
  /\ useModuleStoreInfo
       (step (run init [Render (Some "A");
                        SubscribeResolved 0 (Some {| lastUpdated := 1;
                                                     updateWarning := None |})])
          (Render (Some "B"))) = None.
Proof.
  assert (Hm : "B" <> "") by discriminate.
  destruct (render_follows_identifier
              [Render (Some "A");
               SubscribeResolved 0 (Some {| lastUpdated := 1;
                                            updateWarning := None |})]
              "B" eq_refl Hm) as [Ha Hc].
  split; [exact Ha|]. apply Hc. vm_compute. discriminate.
Defined.
End SubscriptionExtras.

Section ExtraWitnesses.
Import JsObject.

Lemma merged_records_describe_inputs_witness :
  exists p,
    In p ["b-c"]
    /\ composite_key "a" p
       = composite_key "a-b" "c".
Proof.
  pose proof (merged_records_describe_inputs Examples.colliding) as H.
  rewrite Forall_forall in H.
  destruct (H (set_storeInfo
                 (installed_product
                    (Examples.installed_module "a-b" "Installed" ["c"]) "c")
                 (Examples.store_entry "a" "Store" ["b-c"]))
              (or_introl eq_refl)) as [_ Hstore].
  destruct (Hstore (Examples.store_entry "a" "Store" ["b-c"]) eq_refl)
    as [_ Hp].
  exact Hp.
Defined.

Lemma merged_covers_keys_witness :
  exists r,
    get (merged_object Examples.scenario) "x-p2" = Some r
    /\ installedInfo r = None /\ storeInfo r <> None.
Proof.
  destruct (merged_covers_keys Examples.scenario) as (Hcover & Hinfo & _).
  assert (Hin : In "x-p2" (all_keys Examples.scenario))
    by (vm_compute; auto).
  destruct (proj1 (Hcover "x-p2") Hin) as (r & Hget & _).
  exists r. split; [exact Hget|].
  destruct (Hinfo "x-p2" r Hget) as [Hi Hs]. split.
  - destruct (installedInfo r) eqn:E; [|reflexivity].
    exfalso.
    assert (Hn : Some n <> None) by discriminate.
    apply Hi in Hn. vm_compute in Hn. intuition discriminate.
  - apply Hs. vm_compute. auto.
Defined.

Lemma hiddenCount_counts_hidden_modules_witness :
  hiddenCount (useAllConnectionProducts Examples.scenario)
    (visible_products (useAllConnectionProducts Examples.scenario) true false)
  <> 0%Z.
Proof.
  destruct (hiddenCount_counts_hidden_modules
              (useAllConnectionProducts Examples.scenario) true false)
    as (_ & _ & Hzero).
  intros Hz.
  destruct (proj1 Hzero Hz
              (store_product (Examples.store_entry "x" "Foo" ["p1"; "p2"]) "p2"))
    as (q & Hq & _).
  - vm_compute. auto.
  - vm_compute in Hq. exact Hq.
Defined.
End ExtraWitnesses.
